(** * upl: a file upload and listing web application

    Shallow embedding of [main.go] (package [main]) and of the standard
    library functions it calls on a Unix host: [path/filepath] ([Clean],
    [Base], [Dir], [Join]), [net] ([JoinHostPort], [SplitHostPort]), [flag]
    (the command line parser), [os] ([Create], [ReadDir]) and [io.Copy].

    Go strings are byte strings.  They are [string] in the data model and
    [list ascii] inside the path functions, which index and slice them. *)

From Stdlib Require Import Ascii List Bool Arith Lia.
From stdpp Require Import gmap strings list sorting.

(** ** Byte strings *)

Abbreviation bytes := (list ascii).

Definition b (s : string) : bytes := String.list_ascii_of_string s.
Definition str (l : bytes) : string := String.string_of_list_ascii l.

(** [span p l]: the longest prefix of [l] whose bytes satisfy [p], and
    the rest. *)
Fixpoint span (p : ascii -> bool) (l : bytes) : bytes * bytes :=
  match l with
  | [] => ([], [])
  | c :: l' =>
      if p c then let '(e, r) := span p l' in (c :: e, r) else ([], l)
  end.

Fixpoint dropWhile (p : ascii -> bool) (l : bytes) : bytes :=
  match l with
  | [] => []
  | c :: l' => if p c then dropWhile p l' else l
  end.

(** ** path/filepath on Unix *)

Module filepath.

Definition Separator : ascii := "/"%char.

(** os.IsPathSeparator *)
Definition IsPathSeparator (c : ascii) : bool := Ascii.eqb c Separator.

Definition notSep (c : ascii) : bool := negb (IsPathSeparator c).

Definition isDot (c : ascii) : bool := Ascii.eqb c "."%char.

(** [r == n || os.IsPathSeparator(path[r])], on the suffix [path[r:]]. *)
Definition endOrSep (rest : bytes) : bool :=
  match rest with
  | [] => true
  | c :: _ => IsPathSeparator c
  end.

(** The backtracking of [Clean] on a [..] element:
<<
    out.w--
    for out.w > dotdot && !os.IsPathSeparator(out.index(out.w)) {
        out.w--
    }
>>
    The argument is the written part of the buffer, newest byte first;
    its head is [out.index(out.w)] once [out.w] is decremented. *)
Fixpoint unwind (rout : bytes) (dotdot : nat) : bytes :=
  match rout with
  | [] => []
  | c :: rout' =>
      if (dotdot <? length rout') && notSep c
      then unwind rout' dotdot
      else rout'
  end.

Definition backtrack (out : bytes) (dotdot : nat) : bytes :=
  rev (unwind (rev out) dotdot).

(** The main loop of [Clean], [for r < n { switch ... }].  [rest] is
    [path[r:]], [out] is the written part [buf[:w]] of the lazy buffer
    and [dotdot] the index where [..] must stop.  Every iteration
    advances [r], so [length rest] iterations are enough
    ([clean_loop_fuel]). *)
Fixpoint clean_loop (fuel : nat) (rooted : bool) (rest out : bytes)
    (dotdot : nat) : bytes :=
  match fuel with
  | O => out
  | S fuel' =>
      match rest with
      | [] => out
      | c :: r1 =>
          if IsPathSeparator c then
            (* empty path element *)
            clean_loop fuel' rooted r1 out dotdot
          else if isDot c && endOrSep r1 then
            (* . element *)
            clean_loop fuel' rooted r1 out dotdot
          else if isDot c
                  && match r1 with
                     | c1 :: r2 => isDot c1 && endOrSep r2
                     | [] => false
                     end then
            (* .. element: remove to last separator *)
            let r2 := tl r1 in
            if dotdot <? length out then
              (* can backtrack *)
              clean_loop fuel' rooted r2 (backtrack out dotdot) dotdot
            else if negb rooted then
              (* cannot backtrack, but not rooted, so append .. element *)
              let out1 := if 0 <? length out then out ++ [Separator] else out in
              let out2 := out1 ++ ["."%char; "."%char] in
              clean_loop fuel' rooted r2 out2 (length out2)
            else
              clean_loop fuel' rooted r2 out dotdot
          else
            (* real path element: add slash if needed, copy element *)
            let out1 :=
              if rooted && negb (length out =? 1)
                 || negb rooted && negb (length out =? 0)
              then out ++ [Separator] else out in
            let '(elem, r') := span notSep rest in
            clean_loop fuel' rooted r' (out1 ++ elem) dotdot
      end
  end.

(** filepath.Clean, with an empty volume name. *)
Definition clean (path : bytes) : bytes :=
  match path with
  | [] => ["."%char]
  | c :: tail =>
      let rooted := IsPathSeparator c in
      let out :=
        if rooted
        then clean_loop (length tail) rooted tail [Separator] 1
        else clean_loop (length path) rooted path [] 0 in
      (* Turn empty string into "." *)
      match out with
      | [] => ["."%char]
      | _ => out
      end
  end.

(** filepath.Base: strip trailing slashes, keep what follows the last
    separator. Both loops run from the end of the string. *)
Definition base (path : bytes) : bytes :=
  match path with
  | [] => ["."%char]
  | _ =>
      let stripped := dropWhile IsPathSeparator (rev path) in
      match fst (span notSep stripped) with
      | [] => [Separator]
      | relem => rev relem
      end
  end.

(** filepath.Dir: [Clean(path[:i+1])] for [i] the index of the last
    separator. *)
Definition dir (path : bytes) : bytes :=
  clean (rev (dropWhile notSep (rev path))).

(** strings.Join(elem, "/") *)
Fixpoint joinSep (elem : list bytes) : bytes :=
  match elem with
  | [] => []
  | [e] => e
  | e :: rest => e ++ Separator :: joinSep rest
  end.

(** filepath.Join: leading empty elements are ignored, the rest is
    joined with separators and cleaned. *)
Fixpoint join (elem : list bytes) : bytes :=
  match elem with
  | [] => []
  | [] :: rest => join rest
  | _ :: _ => clean (joinSep elem)
  end.

Definition Clean (path : string) : string := str (clean (b path)).
Definition Base (path : string) : string := str (base (b path)).
Definition Dir (path : string) : string := str (dir (b path)).
Definition Join (elem : list string) : string := str (join (map b elem)).

End filepath.

(** ** Errors *)

Inductive errno := ENOENT | EISDIR | ENOTDIR.

Inductive error :=
  | Errorf (msg : string)                        (* fmt.Errorf(msg) *)
  | PathError (op path : string) (e : errno)     (* *fs.PathError *)
  | AddrError (err addr : string)                (* *net.AddrError *)
  | IOError (msg : string).         (* request, stream, template layers *)

Definition errno_Error (e : errno) : string :=
  match e with
  | ENOENT => "no such file or directory"
  | EISDIR => "is a directory"
  | ENOTDIR => "not a directory"
  end.

(** The [Error()] method. *)
Definition Error (e : error) : string :=
  match e with
  | Errorf msg => msg
  | PathError op path e => op +:+ " " +:+ path +:+ ": " +:+ errno_Error e
  | AddrError err addr => "address " +:+ addr +:+ ": " +:+ err
  | IOError msg => msg
  end.

(** A Go result [(v, err)]: [inl err] when [err != nil]. *)
Abbreviation result A := (error + A)%type.

(** ** The file system

    A table of directories, each a finite map from entry names to nodes.
    A path [p] names the entry [filepath.Base p] of the directory
    [filepath.Dir p]; directories are keyed by their cleaned path. *)

Inductive node :=
  | File (data : string)
  | Directory.

Abbreviation directory := (gmap string node).
Abbreviation FS := (gmap string directory).

Module os.

Record DirEntry := { Name : string; IsDir : bool }.

(** The last elements [.], [..] and [/] name directories, never files. *)
Definition dirName (name : string) : bool :=
  bool_decide (name = ".") || bool_decide (name = "..")
  || bool_decide (name = "/").

(** os.Create(name): open with O_RDWR|O_CREATE|O_TRUNC.  The entry is
    created empty, or truncated when it is a file already. *)
Definition Create (name : string) (fs : FS) : result FS :=
  let d := filepath.Dir name in
  let n := filepath.Base name in
  if dirName n then inl (PathError "open" name EISDIR)
  else
    match fs !! d with
    | None => inl (PathError "open" name ENOENT)
    | Some ents =>
        match ents !! n with
        | Some Directory => inl (PathError "open" name EISDIR)
        | _ => inr (<[d := <[n := File ""]> ents]> fs)
        end
    end.

(** Write on a file opened by [Create]: the bytes are appended to the
    entry that [name] resolves to. *)
Definition Write (name : string) (p : string) (fs : FS) : FS :=
  let d := filepath.Dir name in
  let n := filepath.Base name in
  match fs !! d with
  | Some ents =>
      match ents !! n with
      | Some (File data) => <[d := <[n := File (data +:+ p)]> ents]> fs
      | _ => fs
      end
  | None => fs
  end.

Definition entryOf (kv : string * node) : DirEntry :=
  {| Name := kv.1;
     IsDir := match kv.2 with Directory => true | File _ => false end |}.

Definition byName (x y : DirEntry) : Prop := String.le (Name x) (Name y).

#[global] Instance byName_dec : RelDecision byName.
Proof. intros x y. unfold byName. apply _. Defined.

(** os.ReadDir(name): all the entries of the directory, sorted by
    filename. *)
Definition ReadDir (name : string) (fs : FS) : result (list DirEntry) :=
  match fs !! filepath.Clean name with
  | None => inl (PathError "open" name ENOENT)
  | Some ents => inr (merge_sort byName (entryOf <$> map_to_list ents))
  end.

End os.

(** ** Request and response *)

(** What a reader of an uploaded part delivers: [data], then end of file
    or the error [fault]. *)
Record stream := { data : string; fault : option error }.

(** io.Copy(dst, src), [dst] the file opened at [name]: the bytes read
    are written, and the copy ends with the stream's error, if any. *)
Definition io_Copy (name : string) (src : stream) (fs : FS)
    : FS * option error :=
  (os.Write name (data src) fs, fault src).

(** multipart.FileHeader *)
Record FileHeader := { Filename : string; Open : result stream }.

(** multipart.Form *)
Record Form := { FormFile : gmap string (list FileHeader) }.

(** The page model, the anonymous struct [v] of [listFiles]. *)
Record PageModel := { Title : string; Files : list string }.

(** A response written by the handler. *)
Record Response := { Status : nat; Body : string }.

(** echo.Context: the request's multipart form and the registered
    renderer ([Template.Render] over the selected template file system),
    which maps a template name and a page model to the bytes of the page
    or fails. *)
Record Context := {
  MultipartForm : result Form;
  Renderer : string -> PageModel -> result string
}.

Definition StatusOK : nat := 200.

(** The process state a handler can change: the file system and the log. *)
Record World := { fs : FS; logs : list string }.

(** What a handler leaves: its returned [error] ([None] is [nil]) and the
    response it wrote, if any. *)
Record Reply := { returned : option error; written : option Response }.

(** c.Render(code, name, data): the page is rendered to a buffer first;
    a renderer error is returned and nothing is written. *)
Definition Render (c : Context) (code : nat) (name : string)
    (v : PageModel) : Reply :=
  match Renderer c name v with
  | inl err => {| returned := Some err; written := None |}
  | inr page =>
      {| returned := None;
         written := Some {| Status := code; Body := page |} |}
  end.

(** ** main.go *)

Definition version : string := "0.1.0".

Record config := {
  NoEmbed : bool;
  StoreDir : string;
  ListenAddr : string;
  Port : string
}.

Definition newConfig : config :=
  {| NoEmbed := false;
     StoreDir := "files";
     ListenAddr := "localhost";
     Port := "1323" |}.

Definition listCurrentDir (dir : string) (w : World) : list string * World :=
  match os.ReadDir dir (fs w) with
  | inl err =>
      ([], {| fs := fs w;
              logs := logs w ++
                ["could not read current directory: " +:+ Error err] |})
  | inr des => (os.Name <$> des, w)
  end.

Definition listFiles (c : Context) (conf : config) (w : World)
    : Reply * World :=
  let '(files, w1) := listCurrentDir (StoreDir conf) w in
  let v := {| Title := "Uploader"; Files := files |} in
  (Render c StatusOK "main.html" v, w1).

(** The filename check of [uploadFiles]:
<<
    filename := filepath.Base(filepath.Clean(file.Filename))
    if filename == "." || filename == "/" {
        return fmt.Errorf("invalid filename")
    }
>> *)
Definition sanitize (name : string) : result string :=
  let filename := filepath.Base (filepath.Clean name) in
  if bool_decide (filename = ".") || bool_decide (filename = "/")
  then inl (Errorf "invalid filename")
  else inr filename.

(** How the loop over the parts ends: it runs to the end of [files], or
    a [return] inside its body leaves [uploadFiles] with that value. *)
Inductive loopEnd :=
  | Done
  | Return (err : option error).

(** The body of [for _, file := range files].  The deferred [Close] calls
    change neither the file system nor the reply. *)
Fixpoint uploadLoop (conf : config) (files : list FileHeader) (fs : FS)
    : loopEnd * FS :=
  match files with
  | [] => (Done, fs)
  | file :: rest =>
      match Open file with
      | inl err => (Return (Some err), fs)
      | inr src =>
          match sanitize (Filename file) with
          | inl err => (Return (Some err), fs)
          | inr filename =>
              let filename := filepath.Join [StoreDir conf; filename] in
              match os.Create filename fs with
              | inl err => (Return (Some err), fs)
              | inr fs1 =>
                  match io_Copy filename src fs1 with
                  | (fs2, Some _) => (Return None, fs2)
                  | (fs2, None) => uploadLoop conf rest fs2
                  end
              end
          end
      end
  end.

Definition uploadFiles (c : Context) (conf : config) (w : World)
    : Reply * World :=
  match MultipartForm c with
  | inl err => ({| returned := Some err; written := None |}, w)
  | inr form =>
      let files := default [] (FormFile form !! "upload") in
      match uploadLoop conf files (fs w) with
      | (Return err, fs1) =>
          ({| returned := err; written := None |},
           {| fs := fs1; logs := logs w |})
      | (Done, fs1) => listFiles c conf {| fs := fs1; logs := logs w |}
      end
  end.

(** ** The command line: packages net and flag *)

Module net.

Fixpoint index (c : ascii) (s : bytes) : option nat :=
  match s with
  | [] => None
  | x :: s' => if Ascii.eqb x c then Some 0 else S <$> index c s'
  end.

(** The index of the last [c] of [s]. *)
Fixpoint last (c : ascii) (s : bytes) : option nat :=
  match s with
  | [] => None
  | x :: s' =>
      match last c s' with
      | Some i => Some (S i)
      | None => if Ascii.eqb x c then Some 0 else None
      end
  end.

(** [bytealg.IndexByteString(s, c) >= 0] *)
Definition contains (c : ascii) (s : bytes) : bool :=
  match index c s with
  | Some _ => true
  | None => false
  end.

(** net.JoinHostPort: a host with a colon is an IPv6 literal and gets
    brackets. *)
Definition JoinHostPort (host port : string) : string :=
  if contains ":"%char (b host)
  then "[" +:+ host +:+ "]:" +:+ port
  else host +:+ ":" +:+ port.

Definition missingPort : string := "missing port in address".
Definition tooManyColons : string := "too many colons in address".

Definition addrErr {A} (addr why : string) : result A :=
  inl (AddrError why addr).

(** net.SplitHostPort *)
Definition SplitHostPort (hostport : string) : result (string * string) :=
  let hp := b hostport in
  let addrErr {A} why : result A := addrErr hostport why in
  (* The port starts after the last colon. *)
  match last ":"%char hp with
  | None => addrErr missingPort
  | Some i =>
      let bracketed :=
        match hp with
        | c :: _ => Ascii.eqb c "["%char
        | [] => false
        end in
      let split : result (bytes * nat * nat) :=
        if bracketed then
          (* Expect the first ']' just before the last ':'. *)
          match index "]"%char hp with
          | None => addrErr "missing ']' in address"
          | Some end_ =>
              if end_ + 1 =? length hp then addrErr missingPort
              else if end_ + 1 =? i
              then inr (take (end_ - 1) (drop 1 hp), 1, end_ + 1)
              else
                match hp !! (end_ + 1) with
                | Some c =>
                    if Ascii.eqb c ":"%char then addrErr tooManyColons
                    else addrErr missingPort
                | None => addrErr missingPort
                end
          end
        else
          let host := take i hp in
          if contains ":"%char host then addrErr tooManyColons
          else inr (host, 0, 0) in
      match split with
      | inl err => inl err
      | inr (host, j, k) =>
          if contains "["%char (drop j hp)
          then addrErr "unexpected '[' in address"
          else if contains "]"%char (drop k hp)
          then addrErr "unexpected ']' in address"
          else inr (str host, str (drop (i + 1) hp))
      end
  end.

End net.

Module flag.

(** The value of a flag: [*bool] or [*string]. *)
Inductive value :=
  | BoolVar (v : bool)
  | StringVar (v : string).

(** The flags seen on the command line, by name. *)
Abbreviation actual := (gmap string value).

(** Why parsing stopped: [flag.ErrHelp], or a failure. *)
Inductive parseError :=
  | ErrHelp
  | Failf (msg : string).

(** strconv.ParseBool *)
Definition ParseBool (s : string) : option bool :=
  if bool_decide (s ∈ ["1"; "t"; "T"; "TRUE"; "true"; "True"]) then Some true
  else if bool_decide (s ∈ ["0"; "f"; "F"; "FALSE"; "false"; "False"])
  then Some false
  else None.

(** The name of a flag and its argument, split at the first [=] that
    is not the first byte. *)
Definition splitValue (name : bytes) : bytes * option bytes :=
  match name with
  | [] => ([], None)
  | c :: rest =>
      match net.index "="%char rest with
      | Some i => (c :: take i rest, Some (drop (S i) rest))
      | None => (name, None)
      end
  end.

(** [FlagSet.Parse]: [parseOne] until an argument is not a flag.
    [formal] gives the defined flags and their default values; a flag's
    kind is the kind of its default. *)
Fixpoint Parse (formal : gmap string value) (args : list string)
    (seen : actual) : parseError + actual :=
  match args with
  | [] => inr seen
  | s :: rest =>
      match b s with
      | "-"%char :: c1 :: s2 =>
          let minus2 := Ascii.eqb c1 "-"%char in
          if minus2 && bool_decide (s2 = []) then
            (* "--" terminates the flags *)
            inr seen
          else
            let name := if minus2 then s2 else c1 :: s2 in
            match name with
            | [] => inl (Failf ("bad flag syntax: " +:+ s))
            | c :: _ =>
                if Ascii.eqb c "-"%char || Ascii.eqb c "="%char
                then inl (Failf ("bad flag syntax: " +:+ s))
                else
                  let '(name, val) := splitValue name in
                  let name := str name in
                  match formal !! name with
                  | None =>
                      if bool_decide (name = "help")
                         || bool_decide (name = "h")
                      then inl ErrHelp
                      else inl (Failf
                        ("flag provided but not defined: -" +:+ name))
                  | Some (BoolVar _) =>
                      (* special case: doesn't need an arg *)
                      match val with
                      | Some v =>
                          match ParseBool (str v) with
                          | Some bv =>
                              Parse formal rest (<[name := BoolVar bv]> seen)
                          | None =>
                              inl (Failf ("invalid boolean value for -"
                                          +:+ name))
                          end
                      | None =>
                          Parse formal rest (<[name := BoolVar true]> seen)
                      end
                  | Some (StringVar _) =>
                      (* It must have a value, which might be the next
                         argument. *)
                      match val with
                      | Some v =>
                          Parse formal rest
                            (<[name := StringVar (str v)]> seen)
                      | None =>
                          match rest with
                          | v :: rest' =>
                              Parse formal rest'
                                (<[name := StringVar v]> seen)
                          | [] =>
                              inl (Failf ("flag needs an argument: -"
                                          +:+ name))
                          end
                      end
                  end
            end
      | _ => inr seen
      end
  end.

(** The value behind the pointer that [flag.Bool] or [flag.String]
    returned, once the command line is parsed. *)
Definition boolOf (seen : actual) (name : string) (dflt : bool) : bool :=
  match seen !! name with
  | Some (BoolVar v) => v
  | _ => dflt
  end.

Definition stringOf (seen : actual) (name : string) (dflt : string)
    : string :=
  match seen !! name with
  | Some (StringVar v) => v
  | _ => dflt
  end.

End flag.

(** A function that may end the process: [os.Exit(code)], also through
    [log.Fatalln] (code 1) and [flag.ExitOnError] (code 0 on [ErrHelp],
    else 2). *)
Inductive outcome (A : Type) :=
  | Returns (a : A)
  | Exit (code : nat).
Arguments Returns {A} a.
Arguments Exit {A} code.

(** The flags that [parseCli] defines, with their defaults. *)
Definition formalFlags (c : config) : gmap string flag.value :=
  {[ "listen" := flag.StringVar (net.JoinHostPort (ListenAddr c) (Port c));
     "no-embed" := flag.BoolVar (NoEmbed c);
     "store" := flag.StringVar (StoreDir c);
     "version" := flag.BoolVar false;
     "help" := flag.BoolVar false ]}.

(** [parseCli(os.Args)]: [flag.Parse()] reads [os.Args[1:]], the tail of
    [args]. *)
Definition parseCli (args : list string) : outcome config :=
  let c := newConfig in
  match flag.Parse (formalFlags c) (tail args) ∅ with
  | inl flag.ErrHelp => Exit 0
  | inl (flag.Failf _) => Exit 2
  | inr seen =>
      let hostPort :=
        flag.stringOf seen "listen"
          (net.JoinHostPort (ListenAddr c) (Port c)) in
      let noEmbed := flag.boolOf seen "no-embed" (NoEmbed c) in
      let storeDir := flag.stringOf seen "store" (StoreDir c) in
      let showVersion := flag.boolOf seen "version" false in
      let showHelp := flag.boolOf seen "help" false in
      if showHelp then Exit 0
      else if showVersion then Exit 0
      else
        match net.SplitHostPort hostPort with
        | inl _ => Exit 1
        | inr (h, p) =>
            let h := if bool_decide (h = "") then "0.0.0.0" else h in
            Returns {| NoEmbed := noEmbed; StoreDir := storeDir;
                       ListenAddr := h; Port := p |}
        end
  end.

(** ** Paths as lists of elements

    What [Clean] computes, stated on the elements of a path: the
    elements are read left to right onto a stack; [.] and empty elements
    are dropped, [..] pops the last name, and where there is none it is
    kept in front (relative path) or dropped (rooted path). *)

Module elements.
Import filepath.

Definition dot : bytes := ["."%char].
Definition dotdot : bytes := ["."%char; "."%char].

(** The elements of a path, between its separators. *)
Fixpoint split (path : bytes) : list bytes :=
  match path with
  | [] => [[]]
  | c :: path' =>
      if IsPathSeparator c then [] :: split path'
      else
        match split path' with
        | e :: es => (c :: e) :: es
        | [] => [[c]]
        end
  end.

(** A name: an element that stays in a clean path as it is. *)
Definition isName (e : bytes) : Prop :=
  e <> [] /\ e <> dot /\ e <> dotdot /\ Forall (fun c => notSep c = true) e.

(** A normal path: [k] leading [..] elements, then names, last name
    first. *)
Definition stack : Type := nat * list bytes.

Definition step (rooted : bool) (st : stack) (e : bytes) : stack :=
  let '(k, names) := st in
  if bool_decide (e = []) || bool_decide (e = dot) then st
  else if bool_decide (e = dotdot) then
    match names with
    | _ :: names' => (k, names')
    | [] => if rooted then st else (S k, [])
    end
  else (k, e :: names).

Definition norm (rooted : bool) (es : list bytes) : stack :=
  fold_left (step rooted) es (0, []).

Definition comps (st : stack) : list bytes :=
  repeat dotdot st.1 ++ rev st.2.

Definition root (rooted : bool) : bytes :=
  if rooted then [Separator] else [].

Definition render (rooted : bool) (st : stack) : bytes :=
  root rooted ++ joinSep (comps st).

Definition isRooted (path : bytes) : bool :=
  match path with
  | c :: _ => IsPathSeparator c
  | [] => false
  end.

(** Turn empty string into "." *)
Definition orDot (out : bytes) : bytes :=
  match out with
  | [] => dot
  | _ => out
  end.

(** A stack as [Clean] builds them. *)
Definition wf (rooted : bool) (st : stack) : Prop :=
  (rooted = true -> st.1 = 0) /\ Forall isName st.2.

(** A prefix that ends where an element starts. *)
Definition ends (p : bytes) : Prop :=
  p = [] \/ exists p', p = p' ++ [Separator].

End elements.

(** ** The store directory *)

(** [dest] names an entry of the directory [store]: its directory is
    [store], and its last element is a name, not [.], [..] or [/]. *)
Definition inside (store dest : string) : Prop :=
  filepath.Dir dest = filepath.Clean store
  /\ os.dirName (filepath.Base dest) = false.

(** The path that [uploadFiles] creates for a part named [name]. *)
Definition destination (conf : config) (name : string) : result string :=
  match sanitize name with
  | inl err => inl err
  | inr filename => inr (filepath.Join [StoreDir conf; filename])
  end.

(** ** A small installation

    The default configuration in a working directory that holds the
    empty store directory [files]. *)

Module example.

Definition world : World :=
  {| fs := {[ "." := {[ "files" := Directory ]}; "files" := ∅ ]};
     logs := [] |}.

Definition part (name content : string) : FileHeader :=
  {| Filename := name;
     Open := inr {| data := content; fault := None |} |}.

(** A part whose stream breaks after the bytes [content]. *)
Definition broken (name content : string) : FileHeader :=
  {| Filename := name;
     Open := inr {| data := content;
                    fault := Some (IOError "unexpected EOF") |} |}.

(** A renderer that prints the title and the names, one per line. *)
Definition page (name : string) (v : PageModel) : result string :=
  inr (String.concat (String "010"%char "") (Title v :: Files v)).

Definition request (files : list FileHeader) : Context :=
  {| MultipartForm := inr {| FormFile := {[ "upload" := files ]} |};
     Renderer := page |}.

End example.

(** ** Assets: selectStaticFS and selectTplFS *)

(** The files embedded in the binary by a [//go:embed] directive. *)
Inductive embedFS :=
  | Embed (pattern : string).

(** Where an [fs.FS] of the application reads from: a directory of the
    host ([os.DirFS]), the embedded files, or a subtree of them
    ([fs.Sub]). *)
Inductive assets :=
  | DirFS (dir : string)
  | Embedded (fsys : embedFS)
  | SubFS (fsys : embedFS) (dir : string).

Definition staticFS : embedFS := Embed "static".
Definition tplFS : embedFS := Embed "tpl".

(** fs.ValidPath, on byte strings that are valid UTF-8: the path is [.],
    or none of its elements is empty, [.] or [..]. *)
Definition ValidPath (name : string) : bool :=
  bool_decide (name = ".")
  || forallb
       (fun elem =>
          negb (bool_decide (elem = []) || bool_decide (elem = elements.dot)
                || bool_decide (elem = elements.dotdot)))
       (elements.split (b name)).

(** fs.Sub on an [embed.FS], which has no [Sub] method of its own. *)
Definition fs_Sub (fsys : embedFS) (dir : string) : result assets :=
  if negb (ValidPath dir)
  then inl (IOError ("sub " +:+ dir +:+ ": invalid argument"))
  else if bool_decide (dir = ".") then inr (Embedded fsys)
  else inr (SubFS fsys dir).

(** [getwd] is what [os.Getwd()] returns in the process. *)
Definition selectStaticFS (getwd : result string) (noEmbed : bool)
    : result assets :=
  if noEmbed then
    match getwd with
    | inl err => inl err
    | inr cwd => inr (DirFS (filepath.Join [cwd; "static"]))
    end
  else
    match fs_Sub staticFS "static" with
    | inl err => inl err
    | inr subfs => inr subfs
    end.

Definition selectTplFS (getwd : result string) (noEmbed : bool)
    : result assets :=
  if noEmbed then
    match getwd with
    | inl err => inl err
    | inr cwd => inr (DirFS (filepath.Join [cwd; "tpl"]))
    end
  else
    match fs_Sub tplFS "tpl" with
    | inl err => inl err
    | inr subfs => inr subfs
    end.

(** The address that [app] starts the server on:
    [addr := net.JoinHostPort(conf.ListenAddr, conf.Port)]. *)
Definition addr (conf : config) : string :=
  net.JoinHostPort (ListenAddr conf) (Port conf).

(** ** What a request stores *)

(** The entry name and the bytes of a part that [uploadFiles] stores. *)
Definition partName (file : FileHeader) : string :=
  filepath.Base (filepath.Clean (Filename file)).

Definition partData (file : FileHeader) : string :=
  match Open file with
  | inr src => data src
  | inl _ => ""
  end.

(** A part that goes through the loop body in a directory [ents]: it
    opens and copies to its end, its name is not [.], [..] or [/], and
    no directory of [ents] has that name. *)
Definition storable (ents : directory) (file : FileHeader) : Prop :=
  (exists src, Open file = inr src /\ fault src = None)
  /\ os.dirName (partName file) = false
  /\ ents !! partName file <> Some Directory.

(** The directory [ents] once the parts are stored, in order. *)
Definition storeParts (files : list FileHeader) (ents : directory)
    : directory :=
  foldl (fun e file => <[partName file := File (partData file)]> e)
        ents files.

(** [fs'] keeps what [fs] has: every directory, every entry of it, and
    every subdirectory as a directory. *)
Definition keeps (fs fs' : FS) : Prop :=
  forall d ents, fs !! d = Some ents ->
    exists ents', fs' !! d = Some ents'
      /\ forall n, (is_Some (ents !! n) -> is_Some (ents' !! n))
                /\ (ents !! n = Some Directory -> ents' !! n = Some Directory).

(** An argument that ends the flags: not [-x...], or the terminator
    [--]. *)
Definition endsFlags (arg : string) : bool :=
  match b arg with
  | "-"%char :: _ :: _ => bool_decide (arg = "--")
  | _ => true
  end.

(** A name that [flag.Parse] reads back from [-name] and [-name=value]:
    not empty, not starting with [-] or [=], without [=]. *)
Definition flagName (name : string) : Prop :=
  match b name with
  | c :: cs =>
      c <> "-"%char /\ c <> "="%char /\ net.contains "="%char cs = false
  | [] => False
  end.

(** ** Directories: os.Stat, os.Mkdir, os.MkdirAll *)

Module osdir.

Record FileInfo := { IsDir : bool }.

(** os.Stat(name), and os.Lstat, which differs on symbolic links only:
    the empty path names nothing; a path names a directory of the table
    or an entry of its parent directory. *)
Definition Stat (name : string) (fs : FS) : result FileInfo :=
  if bool_decide (name = "") then inl (PathError "stat" name ENOENT)
  else
    let p := filepath.Clean name in
    match fs !! p with
    | Some _ => inr {| IsDir := true |}
    | None =>
        match fs !! filepath.Dir p with
        | Some ents =>
            match ents !! filepath.Base p with
            | Some Directory => inr {| IsDir := true |}
            | Some (File _) => inr {| IsDir := false |}
            | None => inl (PathError "stat" name ENOENT)
            end
        | None => inl (PathError "stat" name ENOENT)
        end
    end.

Definition fileExists (name : string) : error :=
  IOError ("mkdir " +:+ name +:+ ": file exists").

(** os.Mkdir(name, perm): the parent directory must exist and have no
    entry of that name; the new directory is empty. *)
Definition Mkdir (name : string) (fs : FS) : result FS :=
  if bool_decide (name = "") then inl (PathError "mkdir" name ENOENT)
  else
    let p := filepath.Clean name in
    if os.dirName (filepath.Base p) then inl (fileExists name)
    else
      match fs !! p with
      | Some _ => inl (fileExists name)
      | None =>
          match fs !! filepath.Dir p with
          | None => inl (PathError "mkdir" name ENOENT)
          | Some ents =>
              match ents !! filepath.Base p with
              | Some _ => inl (fileExists name)
              | None =>
                  inr (<[p := ∅]>
                         (<[filepath.Dir p :=
                              <[filepath.Base p := Directory]> ents]> fs))
              end
          end
      end.

(** os.MkdirAll(path, perm).  The parent [path[:j-1]] is shorter than
    [path], so that [S (length path)] calls are enough. *)
Fixpoint MkdirAll_ (fuel : nat) (path : string) (fs : FS) : result FS :=
  match fuel with
  | O => inl (IOError "mkdir: path too long")
  | S fuel' =>
      (* Fast path: if we can tell whether path is a directory or file,
         stop with success or error. *)
      match Stat path fs with
      | inr dir =>
          if IsDir dir then inr fs
          else inl (PathError "mkdir" path ENOTDIR)
      | inl _ =>
          (* Slow path: make sure parent exists and then call Mkdir. *)
          let bs := b path in
          (* path[:i], without the trailing separators *)
          let upto_i := rev (dropWhile filepath.IsPathSeparator (rev bs)) in
          (* path[:j], without the last element *)
          let j := length (rev (dropWhile filepath.notSep (rev upto_i))) in
          let parent :=
            if 1 <? j then MkdirAll_ fuel' (str (take (j - 1) bs)) fs
            else inr fs in
          match parent with
          | inl err => inl err
          | inr fs1 =>
              (* Parent now exists; invoke Mkdir and use its result. *)
              match Mkdir path fs1 with
              | inr fs2 => inr fs2
              | inl err =>
                  (* Handle arguments like "foo/." by double-checking
                     that directory doesn't exist. *)
                  match Stat path fs1 with
                  | inr dir => if IsDir dir then inr fs1 else inl err
                  | inl _ => inl err
                  end
              end
          end
      end
  end.

Definition MkdirAll (path : string) (fs : FS) : result FS :=
  MkdirAll_ (S (String.length path)) path fs.

End osdir.

(** [main], up to the call [app(conf)], which serves until the process
    ends: the configuration and the file system that [app] starts
    with. *)
Definition main (args : list string) (fs : FS) : outcome (config * FS) :=
  match parseCli args with
  | Exit code => Exit code
  | Returns conf =>
      match osdir.Stat (StoreDir conf) fs with
      | inr _ => Returns (conf, fs)
      | inl _ =>
          match osdir.MkdirAll (StoreDir conf) fs with
          | inl _ => Exit 1
          | inr fs' => Returns (conf, fs')
          end
      end
  end.

(** * Theorems *)

(** ** What [Clean] computes *)

Module path_theory.
Import filepath elements.

#[local] Arguments IsPathSeparator : simpl never.
#[local] Arguments notSep : simpl never.
#[local] Arguments isDot : simpl never.

Lemma sep_true c : IsPathSeparator c = true <-> c = Separator.
Proof. unfold IsPathSeparator. apply Ascii.eqb_eq. Qed.

Lemma span_spec rest e r' :
  span notSep rest = (e, r') ->
  rest = e ++ r' /\ Forall (fun c => notSep c = true) e
  /\ (r' = [] \/ exists r'', r' = Separator :: r'').
Proof.
  revert e r'. induction rest as [|c rest IH]; simpl; intros e r' H.
  - inversion H; subst. split; [done|]. split; [constructor|by left].
  - destruct (notSep c) eqn:Hc.
    + destruct (span notSep rest) as [e0 r0] eqn:Hs. inversion H; subst.
      destruct (IH e0 r' eq_refl) as (-> & Hall & Hr).
      split; [done|]. split; [by constructor|done].
    + inversion H; subst. split; [done|]. split; [constructor|].
      right. exists rest. f_equal. apply sep_true.
      unfold notSep in Hc. by destruct (IsPathSeparator c).
Qed.

Lemma span_app e r :
  Forall (fun c => notSep c = true) e ->
  (r = [] \/ exists r'', r = Separator :: r'') ->
  span notSep (e ++ r) = (e, r).
Proof.
  induction 1 as [|c e Hc _ IH]; intros Hr; simpl.
  - by destruct Hr as [->|[r'' ->]].
  - rewrite Hc, IH; done.
Qed.

Lemma split_names e :
  Forall (fun c => notSep c = true) e -> split e = [e].
Proof.
  induction 1 as [|c e Hc _ IH]; [done|]. simpl.
  unfold notSep in Hc. destruct (IsPathSeparator c); [done|].
  by rewrite IH.
Qed.

Lemma split_nonempty p : split p <> [].
Proof.
  destruct p as [|c p]; simpl; [done|].
  destruct (IsPathSeparator c); [done|]. by destruct (split p).
Qed.

Lemma split_sep x y : split (x ++ Separator :: y) = split x ++ split y.
Proof.
  induction x as [|c x IH]; simpl.
  - done.
  - destruct (IsPathSeparator c); [by rewrite IH|].
    rewrite IH. destruct (split x) eqn:Hx; [by apply split_nonempty in Hx|done].
Qed.

Lemma split_span rest e r' :
  span notSep rest = (e, r') ->
  split rest = match r' with [] => [e] | _ :: r'' => e :: split r'' end.
Proof.
  intros H. destruct (span_spec _ _ _ H) as (-> & Hall & [->|[r'' ->]]).
  - rewrite app_nil_r. by apply split_names.
  - rewrite split_sep, split_names by done. done.
Qed.

(** *** Joining and rendering *)

Lemma joinSep_snoc l e :
  joinSep (l ++ [e]) =
  match l with [] => e | _ => joinSep l ++ Separator :: e end.
Proof.
  induction l as [|x l IH]; [done|].
  destruct l as [|y l]; [done|].
  change (joinSep ((x :: y :: l) ++ [e]))
    with (x ++ Separator :: joinSep ((y :: l) ++ [e])).
  rewrite IH. simpl. by rewrite <- app_assoc.
Qed.

Lemma comps_nil st : comps st = [] <-> st = (0, []).
Proof.
  destruct st as [k names]. unfold comps; simpl. split.
  - intros H. apply app_eq_nil in H as [Hk Hn].
    destruct k; [|done]. apply (f_equal (@rev _)) in Hn.
    rewrite rev_involutive in Hn. by subst.
  - by intros [= -> ->].
Qed.

Lemma comps_push k names e :
  comps (k, e :: names) = comps (k, names) ++ [e].
Proof. unfold comps; simpl. by rewrite app_assoc. Qed.

Lemma comps_dotdot k : comps (S k, []) = comps (k, []) ++ [dotdot].
Proof.
  unfold comps; simpl. rewrite !app_nil_r.
  change (dotdot :: repeat dotdot k) with (repeat dotdot (S k)).
  by rewrite <- repeat_cons.
Qed.

Lemma render_push rooted k names e :
  render rooted (k, e :: names) =
  if bool_decide ((k, names) = (0, []))
  then root rooted ++ e
  else render rooted (k, names) ++ Separator :: e.
Proof.
  unfold render. rewrite comps_push, joinSep_snoc.
  case_bool_decide as H.
  - apply comps_nil in H. by rewrite H.
  - destruct (comps (k, names)) eqn:Hc.
    + by apply comps_nil in Hc.
    + by rewrite <- app_assoc.
Qed.

Lemma render_dotdot k :
  render false (S k, []) =
  if bool_decide (k = 0) then dotdot
  else render false (k, []) ++ Separator :: dotdot.
Proof.
  unfold render. rewrite comps_dotdot, joinSep_snoc.
  case_bool_decide as H.
  - by subst.
  - destruct (comps (k, [])) eqn:Hc; [|done].
    apply comps_nil in Hc. congruence.
Qed.

Lemma render_nil rooted : render rooted (0, []) = root rooted.
Proof. unfold render; simpl. by rewrite app_nil_r. Qed.

Lemma name_nonempty e : isName e -> 0 < length e.
Proof. intros (H & _). destruct e; [done|simpl; lia]. Qed.

(** The names on the stack lie past the index [dotdot]. *)
Lemma render_length rooted k names :
  Forall isName names ->
  length (render rooted (k, [])) <= length (render rooted (k, names))
  /\ (names <> [] ->
      length (render rooted (k, [])) < length (render rooted (k, names))).
Proof.
  induction 1 as [|e names He _ [IH1 IH2]]; [split; [lia|done]|].
  apply name_nonempty in He. rewrite render_push.
  case_bool_decide as H.
  - inversion H; subst. rewrite length_app. unfold render; simpl.
    rewrite app_nil_r. split; intros; lia.
  - rewrite length_app; simpl. split; intros; lia.
Qed.

Lemma render_empty rooted st :
  wf rooted st ->
  length (render rooted st) = length (root rooted) <-> st = (0, []).
Proof.
  destruct st as [k names]. intros [Hk Hn]; simpl in *. split.
  - intros H. destruct names as [|e names].
    + destruct k; [done|]. destruct rooted; [by specialize (Hk eq_refl)|].
      rewrite render_dotdot in H. case_bool_decide; simpl in H; [done|].
      rewrite length_app in H. simpl in H. lia.
    + inversion Hn as [|?? He Hn']; subst. apply name_nonempty in He.
      rewrite render_push in H. case_bool_decide.
      * rewrite length_app in H. lia.
      * rewrite length_app in H. simpl in H.
        unfold render in H. rewrite length_app in H. lia.
  - intros [= -> ->]. unfold render; simpl. by rewrite app_nil_r.
Qed.

(** *** Backtracking *)

Lemma unwind_names e r dd :
  Forall (fun c => notSep c = true) e ->
  dd < length r ->
  unwind (e ++ r) dd = unwind r dd.
Proof.
  induction 1 as [|c e Hc _ IH]; intros Hr; [done|]. simpl.
  rewrite Hc, IH by done.
  replace (dd <? length (e ++ r)) with true; [done|].
  symmetry. apply Nat.ltb_lt. rewrite length_app. lia.
Qed.

Lemma name_rev e :
  isName e -> exists c e', rev e = e' ++ [c]
    /\ notSep c = true /\ Forall (fun c => notSep c = true) e'.
Proof.
  intros (Hne & _ & _ & Hall). destruct e as [|c e]; [done|].
  exists c, (rev e). inversion Hall; subst. split; [done|].
  split; [done|]. by apply Forall_rev.
Qed.

Lemma backtrack_pop rooted k names e :
  wf rooted (k, e :: names) ->
  backtrack (render rooted (k, e :: names))
    (length (render rooted (k, []))) = render rooted (k, names).
Proof.
  intros [Hk Hn]; simpl in *. inversion Hn as [|?? He Hnames]; subst.
  destruct (name_rev _ He) as (c & e' & Hrev & Hc & He').
  unfold backtrack. rewrite render_push. case_bool_decide as H.
  - inversion H; subst. rewrite rev_app_distr, Hrev, <- app_assoc.
    rewrite unwind_names; [|done|].
    + simpl. rewrite Hc, andb_true_r, render_nil, length_rev.
      by rewrite Nat.ltb_irrefl, rev_involutive.
    + simpl. rewrite render_nil, length_rev. lia.
  - destruct (render_length rooted k names Hnames) as [Hle _].
    rewrite rev_app_distr. simpl. rewrite <- app_assoc. 
    rewrite unwind_names; [| by apply Forall_rev; destruct He as (_&_&_&?) |].
    + simpl. by rewrite andb_false_r, rev_involutive.
    + simpl. rewrite length_rev. lia.
Qed.

(** *** One iteration of the loop, by the element it reads *)

Lemma isDot_true c : isDot c = true <-> c = "."%char.
Proof. apply Ascii.eqb_eq. Qed.

Lemma endOrSep_span r :
  endOrSep r = true <-> span notSep r = ([], r).
Proof.
  destruct r as [|c r]; simpl; [done|]. unfold notSep.
  destruct (IsPathSeparator c); simpl; [done|].
  destruct (span _ r). split; [done|]. intros [=].
Qed.

Lemma clean_loop_step fuel rooted c r1 out dd e r' :
  notSep c = true ->
  span notSep (c :: r1) = (e, r') ->
  clean_loop (S fuel) rooted (c :: r1) out dd =
  if bool_decide (e = dot) then clean_loop fuel rooted r' out dd
  else if bool_decide (e = dotdot) then
    if dd <? length out
    then clean_loop fuel rooted r' (backtrack out dd) dd
    else if negb rooted then
      let out1 := if 0 <? length out then out ++ [Separator] else out in
      let out2 := out1 ++ dotdot in
      clean_loop fuel rooted r' out2 (length out2)
    else clean_loop fuel rooted r' out dd
  else
    let out1 :=
      if rooted && negb (length out =? 1)
         || negb rooted && negb (length out =? 0)
      then out ++ [Separator] else out in
    clean_loop fuel rooted r' (out1 ++ e) dd.
Proof.
  intros Hc Hs. cbn [clean_loop].
  assert (IsPathSeparator c = false) as ->
    by (unfold notSep in Hc; by destruct (IsPathSeparator c)).
  rewrite Hs. cbn [span] in Hs. rewrite Hc in Hs.
  destruct (span notSep r1) as [e1 r1'] eqn:Hs1. inversion Hs; subst.
  destruct (isDot c) eqn:Hd; cbn [andb].
  - apply isDot_true in Hd; subst c.
    destruct (endOrSep r1) eqn:He.
    + apply endOrSep_span in He. rewrite He in Hs1. inversion Hs1; subst.
      by rewrite bool_decide_eq_true_2.
    + rewrite bool_decide_eq_false_2; cycle 1.
      { intros [= ->]. 
        assert (endOrSep r1 = true); [|congruence].
        apply endOrSep_span. destruct r1 as [|c1 r1]; [done|].
        cbn [span] in *. destruct (notSep c1); [|done].
        by destruct (span notSep r1). }
      destruct r1 as [|c1 r2]; [done|].
      cbn [span] in Hs1. destruct (notSep c1) eqn:Hc1; cycle 1.
      { simpl in He. unfold notSep in Hc1.
        by destruct (IsPathSeparator c1). }
      destruct (span notSep r2) as [e2 r2'] eqn:Hs2. inversion Hs1; subst.
      destruct (isDot c1) eqn:Hd1; cbn [andb].
      * apply isDot_true in Hd1; subst c1.
        destruct (endOrSep r2) eqn:He2.
        -- apply endOrSep_span in He2. rewrite He2 in Hs2.
           inversion Hs2; subst. by rewrite bool_decide_eq_true_2.
        -- rewrite bool_decide_eq_false_2; [done|].
           intros [= ->]. assert (endOrSep r2 = true); [|congruence].
           apply endOrSep_span. destruct r2 as [|c2 r2]; [done|].
           cbn [span] in *. destruct (notSep c2); [|done].
           by destruct (span notSep r2).
      * rewrite bool_decide_eq_false_2; [done|].
        intros [= ->]. by rewrite (proj2 (isDot_true _) eq_refl) in Hd1.
  - rewrite !bool_decide_eq_false_2; [done| |];
      intros [= -> _]; by rewrite (proj2 (isDot_true _) eq_refl) in Hd.
Qed.

(** *** The loop computes the normal form *)

Lemma step_nil rooted st : step rooted st [] = st.
Proof. by destruct st. Qed.

Lemma step_dot rooted st : step rooted st dot = st.
Proof. by destruct st. Qed.

Lemma step_name rooted k names e :
  isName e -> step rooted (k, names) e = (k, e :: names).
Proof.
  intros (H1 & H2 & H3 & _). unfold step.
  by rewrite !bool_decide_eq_false_2.
Qed.

Lemma step_wf rooted st e :
  Forall (fun c => notSep c = true) e ->
  wf rooted st -> wf rooted (step rooted st e).
Proof.
  destruct st as [k names]. intros He [Hk Hn]. unfold step; simpl in *.
  case_bool_decide as H1; [done|]. case_bool_decide as H2; simpl; [done|].
  case_bool_decide as H3.
  - destruct names as [|n names].
    + destruct rooted; [done|]. split; [done|constructor].
    + inversion Hn; subst. done.
  - split; [done|]. simpl. constructor; [|done]. done.
Qed.

Lemma fold_step_span rooted rest e r' st :
  span notSep rest = (e, r') ->
  fold_left (step rooted) (split rest) st =
  fold_left (step rooted) (split r') (step rooted st e).
Proof.
  intros Hs. rewrite (split_span _ _ _ Hs).
  destruct (span_spec _ _ _ Hs) as (_ & _ & [->|[r'' ->]]); simpl.
  - by rewrite step_nil.
  - by rewrite step_nil.
Qed.

Lemma fold_step_wf rooted es st :
  Forall (Forall (fun c => notSep c = true)) es ->
  wf rooted st -> wf rooted (fold_left (step rooted) es st).
Proof.
  intros H. revert st. induction H as [|e es He _ IH]; [done|].
  intros st Hst. simpl. apply IH. by apply step_wf.
Qed.

Lemma split_notSep path :
  Forall (Forall (fun c => notSep c = true)) (split path).
Proof.
  induction path as [|c path IH]; simpl.
  - by repeat constructor.
  - destruct (IsPathSeparator c) eqn:Hc; [by constructor|].
    destruct (split path) as [|e es]; inversion IH; subst;
      repeat constructor; try done; unfold notSep; by rewrite Hc.
Qed.

Lemma slash_needed rooted st :
  wf rooted st ->
  rooted && negb (length (render rooted st) =? 1)
  || negb rooted && negb (length (render rooted st) =? 0)
  = negb (bool_decide (st = (0, []))).
Proof.
  intros Hwf. pose proof (render_empty rooted st Hwf) as H.
  case_bool_decide as Hst.
  - apply H in Hst. rewrite Hst. by destruct rooted.
  - destruct rooted; cbn [andb negb orb].
    + rewrite orb_false_r. apply negb_true_iff, Nat.eqb_neq.
      change (length (root true)) with 1 in H. tauto.
    + apply negb_true_iff, Nat.eqb_neq.
      change (length (root false)) with 0 in H. tauto.
Qed.

Lemma clean_loop_spec rooted fuel : forall rest st,
  length rest <= fuel ->
  wf rooted st ->
  clean_loop fuel rooted rest (render rooted st)
    (length (render rooted (st.1, [])))
  = render rooted (fold_left (step rooted) (split rest) st).
Proof.
  induction fuel as [|fuel IH]; intros rest st Hlen Hwf.
  { destruct rest; simpl in Hlen; [|lia]. simpl. by rewrite step_nil. }
  destruct rest as [|c r1]; [simpl; by rewrite step_nil|].
  simpl in Hlen. destruct (notSep c) eqn:Hc; cycle 1.
  { assert (IsPathSeparator c = true) as Hs
      by (unfold notSep in Hc; by destruct (IsPathSeparator c)).
    cbn [clean_loop split]. rewrite Hs. cbn [fold_left].
    rewrite step_nil. apply IH; [lia|done]. }
  destruct (span notSep (c :: r1)) as [e r'] eqn:Hs.
  rewrite (clean_loop_step _ _ _ _ _ _ _ _ Hc Hs).
  rewrite (fold_step_span _ _ _ _ _ Hs).
  destruct (span_spec _ _ _ Hs) as (Hrest & He & _).
  assert (e <> []) as Hne.
  { cbn [span] in Hs. rewrite Hc in Hs. destruct (span notSep r1).
    by inversion Hs. }
  assert (length r' <= fuel) as Hlen'.
  { apply (f_equal (@length _)) in Hrest. rewrite length_app in Hrest.
    simpl in Hrest. destruct e; [done|]. simpl in Hrest. lia. }
  case_bool_decide as Hdot.
  { subst e. rewrite step_dot. by apply IH. }
  case_bool_decide as Hdd.
  { subst e. destruct st as [k names]. destruct Hwf as [Hk Hn].
    simpl in Hk, Hn. cbn [fst]. destruct names as [|n names].
    - rewrite Nat.ltb_irrefl. destruct rooted; cbn [negb].
      + apply (IH r' ((k, []) : stack)); [done|]. by split.
      + replace (step false (k, []) dotdot) with ((S k, []) : stack) by done.
        cbv zeta.
        replace ((if 0 <? length (render false (k, []))
                  then render false (k, []) ++ [Separator]
                  else render false (k, [])) ++ dotdot)
          with (render false (S k, [])).
        * apply (IH r' ((S k, []) : stack)); [done|]. by split.
        * rewrite render_dotdot. case_bool_decide as Hk0.
          -- subst k. by rewrite render_nil.
          -- replace (0 <? _) with true; [by rewrite <- app_assoc|].
             symmetry. apply Nat.ltb_lt.
             pose proof (render_empty false (k, [])) as H. simpl in H.
             destruct (length (render false (k, []))); [|lia].
             exfalso. apply Hk0. 
             assert ((k, @nil bytes) = (0, [])) as [=]; [|done].
             apply H; [by split|done].
    - inversion Hn as [|?? Hname Hnames]; subst.
      destruct (render_length rooted k (n :: names) Hn) as [_ Hlt].
      replace (_ <? _) with true
        by (symmetry; apply Nat.ltb_lt; by apply Hlt).
      rewrite backtrack_pop by by split.
      replace (step rooted (k, n :: names) dotdot) with (k, names) by done.
      apply (IH r' (k, names)); [done|]. by split. }
  assert (isName e) as Hname by done.
  destruct st as [k names]. rewrite (step_name _ _ _ _ Hname).
  cbv zeta. rewrite slash_needed by done.
  replace ((if negb (bool_decide ((k, names) = (0, [])))
            then render rooted (k, names) ++ [Separator]
            else render rooted (k, names)) ++ e)
    with (render rooted (k, e :: names)).
  - apply (IH r' (k, e :: names)); [done|].
    destruct Hwf as [Hk Hn]. split; [done|]. by constructor.
  - rewrite render_push.
    destruct (decide ((k, names) = (0, []))) as [Hst|Hst].
    + rewrite !bool_decide_eq_true_2 by done.
      inversion Hst; subst. by rewrite render_nil.
    + rewrite !bool_decide_eq_false_2 by done. simpl.
      by rewrite <- app_assoc.
Qed.

(** Any fuel from [length rest] on gives the same result: the loop
    never stops for lack of it. *)
Lemma clean_loop_fuel rooted rest st fuel :
  wf rooted st ->
  length rest <= fuel ->
  clean_loop fuel rooted rest (render rooted st)
    (length (render rooted (st.1, [])))
  = clean_loop (length rest) rooted rest (render rooted st)
      (length (render rooted (st.1, []))).
Proof. intros Hwf Hlen. by rewrite !clean_loop_spec. Qed.

Lemma clean_spec path :
  clean path =
  orDot (render (isRooted path) (norm (isRooted path) (split path))).
Proof.
  destruct path as [|c tail]; [done|].
  unfold clean, norm. cbn [isRooted split].
  destruct (IsPathSeparator c) eqn:Hc.
  - cbn [fold_left]. rewrite step_nil.
    pose proof (clean_loop_spec true (length tail) tail (0, [])) as H.
    cbn [fst] in H. rewrite !render_nil in H. cbn [root length] in H.
    rewrite H; [done|lia|by split].
  - pose proof (clean_loop_spec false (length (c :: tail)) (c :: tail)
                  (0, [])) as H.
    cbn [fst] in H. rewrite !render_nil in H. cbn [root] in H.
    change (length (@nil ascii)) with 0 in H.
    rewrite H; [|lia|by split]. cbn [split]. by rewrite Hc.
Qed.

Lemma norm_wf path : wf (isRooted path) (norm (isRooted path) (split path)).
Proof. apply fold_step_wf; [apply split_notSep|by split]. Qed.

(** *** Clean paths are fixed points *)

Lemma dotdot_notSep : Forall (fun c => notSep c = true) dotdot.
Proof. by repeat constructor. Qed.

Lemma comps_notSep rooted st :
  wf rooted st -> Forall (Forall (fun c => notSep c = true)) (comps st).
Proof.
  destruct st as [k names]. intros [_ Hn]. unfold comps; simpl in *.
  apply Forall_app. split.
  - apply Forall_forall. intros e He.
    apply list_elem_of_In, repeat_spec in He. subst.
    apply dotdot_notSep.
  - apply Forall_rev. eapply Forall_impl; [exact Hn|].
    by intros e (_ & _ & _ & ?).
Qed.

Lemma split_joinSep cs :
  cs <> [] ->
  Forall (Forall (fun c => notSep c = true)) cs ->
  split (joinSep cs) = cs.
Proof.
  intros Hne H. induction H as [|e cs He Hcs IH]; [done|].
  destruct cs as [|e' cs].
  - by apply split_names.
  - change (joinSep (e :: e' :: cs))
      with (e ++ Separator :: joinSep (e' :: cs)).
    rewrite split_sep, split_names, IH; done.
Qed.

Lemma fold_step_dotdots k j :
  fold_left (step false) (repeat dotdot k) (j, []) = (k + j, []).
Proof.
  revert j. induction k as [|k IH]; intros j; [done|]. simpl.
  rewrite IH. f_equal. lia.
Qed.

Lemma fold_step_names rooted k names acc :
  Forall isName names ->
  fold_left (step rooted) (rev names) (k, acc) = (k, names ++ acc).
Proof.
  induction 1 as [|n names Hn _ IH]; [done|]. simpl.
  rewrite fold_left_app, IH. simpl fold_left. by apply step_name.
Qed.

Lemma norm_comps rooted st :
  wf rooted st -> norm rooted (comps st) = st.
Proof.
  destruct st as [k names]. intros [Hk Hn]; simpl in *.
  unfold norm, comps; simpl. rewrite fold_left_app.
  destruct rooted.
  - rewrite (Hk eq_refl). simpl.
    by rewrite fold_step_names, app_nil_r.
  - by rewrite fold_step_dotdots, fold_step_names, Nat.add_0_r, app_nil_r.
Qed.

Lemma comps_head_notSep rooted st :
  wf rooted st -> st <> (0, []) ->
  exists c rest, joinSep (comps st) = c :: rest /\ notSep c = true.
Proof.
  intros Hwf Hst.
  assert (exists e cs, comps st = e :: cs /\ exists c e', e = c :: e'
                       /\ notSep c = true) as (e & cs & Hc & c & e' & -> & ?).
  { destruct st as [k names]. destruct Hwf as [_ Hn]. simpl in Hn.
    unfold comps; simpl. destruct k as [|k]; simpl.
    - destruct (rev names) as [|e cs] eqn:Hr.
      + apply (f_equal (@rev _)) in Hr. rewrite rev_involutive in Hr.
        by subst.
      + exists e, cs. split; [done|].
        assert (e ∈ names) as He.
        { apply list_elem_of_In, in_rev. rewrite Hr. by left. }
        eapply Forall_forall in He; [|exact Hn].
        destruct He as (Hne & _ & _ & Hall). destruct e as [|c e]; [done|].
        exists c, e. inversion Hall; subst. done.
    - eexists _, _. split; [done|]. by exists "."%char, ["."%char]. }
  rewrite Hc. destruct cs; simpl; eauto.
Qed.

Lemma render_normal rooted st :
  wf rooted st -> st <> (0, []) ->
  render rooted st <> []
  /\ (forall tail, isRooted (render rooted st ++ tail) = rooted)
  /\ norm rooted (split (render rooted st)) = st.
Proof.
  intros Hwf Hst.
  assert (comps st <> []) as Hc by (by intros ?%comps_nil).
  pose proof (comps_notSep _ _ Hwf) as Hall.
  destruct (comps_head_notSep _ _ Hwf Hst) as (c & rest & Hj & Hns).
  split; [|split].
  - unfold render. intros [_ Hr]%app_eq_nil. congruence.
  - intros tail. unfold render. destruct rooted; [done|]. simpl.
    rewrite Hj. simpl. unfold notSep in Hns.
    by destruct (IsPathSeparator c).
  - unfold render, norm. destruct rooted; simpl;
      rewrite split_joinSep by done; by apply norm_comps.
Qed.

Lemma clean_render_slash rooted st :
  wf rooted st -> st <> (0, []) ->
  clean (render rooted st ++ [Separator]) = render rooted st.
Proof.
  intros Hwf Hst. rewrite clean_spec.
  destruct (render_normal _ _ Hwf Hst) as (Hne & Hroot & Hnorm).
  rewrite Hroot, split_sep. unfold norm in *. rewrite fold_left_app, Hnorm.
  simpl. rewrite step_nil. by destruct (render rooted st).
Qed.

(** [Clean] returns its own fixed points. *)
Theorem clean_idempotent path : clean (clean path) = clean path.
Proof.
  rewrite (clean_spec path). pose proof (norm_wf path) as Hwf.
  destruct (decide (norm (isRooted path) (split path) = (0, []))) as [->|Hst].
  - rewrite render_nil. by destruct (isRooted path).
  - destruct (render_normal _ _ Hwf Hst) as (Hne & Hroot & Hnorm).
    specialize (Hroot []). rewrite app_nil_r in Hroot.
    destruct (render _ _) as [|c out] eqn:Hr; [done|]. cbn [orDot].
    rewrite clean_spec, Hroot, Hnorm, Hr. done.
Qed.

(** *** The last element and the directory of a path *)

Lemma ends_rev p :
  ends p -> rev p = [] \/ exists r, rev p = Separator :: r.
Proof.
  intros [->|[p' ->]]; [by left|right].
  rewrite rev_app_distr. simpl. eauto.
Qed.

Lemma dropWhile_names e r :
  Forall (fun c => notSep c = true) e ->
  (r = [] \/ exists r', r = Separator :: r') ->
  dropWhile notSep (e ++ r) = r.
Proof.
  induction 1 as [|c e Hc _ IH]; intros Hr; simpl.
  - by destruct Hr as [->|[r' ->]].
  - rewrite Hc. by apply IH.
Qed.

Lemma base_snoc p n :
  n <> [] -> Forall (fun c => notSep c = true) n -> ends p ->
  base (p ++ n) = n.
Proof.
  intros Hne Hn Hp. unfold base.
  destruct (p ++ n) eqn:Hpn; [by apply app_eq_nil in Hpn as [_ ?]|].
  rewrite <- Hpn, rev_app_distr.
  assert (exists c r, rev n = c :: r /\ notSep c = true) as (c & r & Hr & Hc).
  { destruct (rev n) as [|c r] eqn:Hr.
    - apply (f_equal (@rev _)) in Hr. rewrite rev_involutive in Hr. done.
    - exists c, r. split; [done|]. apply Forall_rev in Hn.
      rewrite Hr in Hn. by inversion Hn. }
  replace (dropWhile IsPathSeparator (rev n ++ rev p))
    with (rev n ++ rev p).
  - rewrite span_app; [|by apply Forall_rev|by apply ends_rev].
    cbn [fst]. rewrite Hr, <- Hr. by rewrite rev_involutive.
  - rewrite Hr. simpl. unfold notSep in Hc.
    by destruct (IsPathSeparator c).
Qed.

Lemma dir_snoc p n :
  Forall (fun c => notSep c = true) n -> ends p ->
  dir (p ++ n) = clean p.
Proof.
  intros Hn Hp. unfold dir. rewrite rev_app_distr.
  rewrite dropWhile_names; [|by apply Forall_rev|by apply ends_rev].
  by rewrite rev_involutive.
Qed.

(** A name pushed on the stack is the last element of the path, and the
    rest of the stack is its directory. *)
Lemma render_push_ends rooted k names e :
  exists p, render rooted (k, e :: names) = p ++ e /\ ends p
    /\ (wf rooted (k, names) -> clean p = orDot (render rooted (k, names))).
Proof.
  rewrite render_push. case_bool_decide as Hst.
  - exists (root rooted). split; [done|]. split.
    + destruct rooted; [right; by exists []|by left].
    + intros _. inversion Hst; subst. rewrite render_nil.
      by destruct rooted.
  - exists (render rooted (k, names) ++ [Separator]).
    split; [by rewrite <- app_assoc|]. split; [right; eauto|].
    intros Hwf. rewrite clean_render_slash by done.
    destruct (render rooted (k, names)) eqn:Hr; [|done].
    exfalso. apply Hst. apply (render_empty rooted); [done|].
    rewrite Hr. unfold render in Hr. apply app_eq_nil in Hr as [Hr _].
    by rewrite Hr.
Qed.

(** [Join(d, n)] for a name [n]. *)
Lemma join_name d n :
  isName n ->
  join [d; n] =
  render (isRooted d)
    ((norm (isRooted d) (split d)).1, n :: (norm (isRooted d) (split d)).2).
Proof.
  intros Hn. pose proof Hn as (Hne & _ & _ & Hall).
  destruct d as [|c d].
  - cbn [join]. destruct n as [|c n]; [done|].
    cbn [joinSep]. rewrite clean_spec.
    assert (isRooted (c :: n) = false) as ->.
    { simpl. inversion Hall; subst. unfold notSep in *.
      by destruct (IsPathSeparator c). }
    rewrite split_names by done. unfold norm. cbn [fold_left].
    rewrite step_name by done. simpl isRooted. simpl split.
    cbn [fold_left]. rewrite step_nil. cbn [fst snd].
    rewrite render_push, bool_decide_eq_true_2 by done. done.
  - cbn [join joinSep]. rewrite clean_spec.
    change (isRooted ((c :: d) ++ Separator :: n)) with (isRooted (c :: d)).
    rewrite split_sep, (split_names n) by done. unfold norm.
    rewrite fold_left_app. cbn [fold_left].
    destruct (fold_left _ (split (c :: d)) _) as [k names].
    rewrite step_name by done. cbn [fst snd].
    destruct (render_push_ends (isRooted (c :: d)) k names n)
      as (p & -> & _ & _).
    destruct (p ++ n) eqn:Hpn; [|done].
    by apply app_eq_nil in Hpn as [_ ?].
Qed.

Theorem join_dir_base d n :
  isName n -> dir (join [d; n]) = clean d /\ base (join [d; n]) = n.
Proof.
  intros Hn. pose proof Hn as (Hne & _ & _ & Hall).
  rewrite join_name by done.
  pose proof (norm_wf d) as Hwf.
  destruct (norm (isRooted d) (split d)) as [k names] eqn:Hnorm.
  cbn [fst snd].
  destruct (render_push_ends (isRooted d) k names n)
    as (p & -> & Hp & Hclean).
  split.
  - rewrite dir_snoc, Hclean by done. by rewrite clean_spec, Hnorm.
  - by apply base_snoc.
Qed.
End path_theory.

(** ** The examples of the package documentation *)

Example Clean_examples :
  filepath.Clean <$>
    ["a/c"; "a//c"; "a/c/."; "a/c/b/.."; "/../a/c"; "/../a/b/../././/c"; ""]
  = ["a/c"; "a/c"; "a/c"; "a/c"; "/a/c"; "/a/c"; "."].
Proof. reflexivity. Qed.

Example Base_examples :
  filepath.Base <$>
    ["/foo/bar/baz.js"; "/foo/bar/baz"; "/foo/bar/baz/"; "dev.txt";
     "../todo.txt"; ".."; "."; "/"; ""]
  = ["baz.js"; "baz"; "baz"; "dev.txt"; "todo.txt"; ".."; "."; "/"; "."].
Proof. reflexivity. Qed.

Example Dir_examples :
  filepath.Dir <$>
    ["/foo/bar/baz.js"; "/foo/bar/baz"; "/foo/bar/baz/"; "/dirty//path///";
     "dev.txt"; "../todo.txt"; ".."; "."; "/"; ""]
  = ["/foo/bar"; "/foo/bar"; "/foo/bar/baz"; "/dirty/path";
     "."; ".."; "."; "."; "/"; "."].
Proof. reflexivity. Qed.

Example Join_examples :
  filepath.Join <$>
    [["a"; "b"; "c"]; ["a"; "b/c"]; ["a/b"; "c"]; ["a/b"; "/c"];
     ["a/b"; "../../../xyz"]; [""; "x"]; ["files"; "report.txt"]]
  = ["a/b/c"; "a/b/c"; "a/b/c"; "a/b/c"; "../xyz"; "x"; "files/report.txt"].
Proof. reflexivity. Qed.

(** ** Strings and byte lists *)

Lemma b_str l : b (str l) = l.
Proof. apply String.list_ascii_of_string_of_list_ascii. Qed.

Lemma str_b s : str (b s) = s.
Proof. apply String.string_of_list_ascii_of_string. Qed.

(** ** The sanitized filename *)

Module sanitizer.
Import filepath elements path_theory.

Lemma base_cases p :
  base p = [Separator]
  \/ (base p <> [] /\ Forall (fun c => notSep c = true) (base p)).
Proof.
  unfold base. destruct p as [|c p]; [right; by repeat constructor|].
  destruct (span notSep (dropWhile IsPathSeparator (rev (c :: p))))
    as [e r] eqn:Hs.
  apply span_spec in Hs as (_ & He & _). cbn [fst].
  destruct e as [|x e]; [by left|right]. split.
  - intros H. apply (f_equal (@rev _)) in H.
    by rewrite rev_involutive in H.
  - by apply Forall_rev.
Qed.

Lemma Base_nonempty p : Base p <> "".
Proof.
  unfold Base. intros H. apply (f_equal b) in H. rewrite b_str in H.
  by destruct (base_cases (b p)) as [H'|[H' _]]; rewrite H in H'.
Qed.

(** A last element other than [.], [..] and [/] is a name. *)
Lemma Base_name p :
  os.dirName (Base p) = false -> isName (b (Base p)).
Proof.
  unfold os.dirName, Base. rewrite b_str. intros H.
  apply orb_false_iff in H as [H H3]. apply orb_false_iff in H as [H1 H2].
  apply bool_decide_eq_false in H1, H2, H3.
  destruct (base_cases (b p)) as [Hb|[Hne Hall]].
  - exfalso. apply H3. by rewrite Hb.
  - split; [done|]. split; [|split; [|done]]; intros Hb.
    + apply H1. by rewrite Hb.
    + apply H2. by rewrite Hb.
Qed.

Lemma sanitize_inr name n :
  sanitize name = inr n <->
  n = Base (Clean name) /\ n <> "." /\ n <> "/".
Proof.
  unfold sanitize. split.
  - intros H. destruct (bool_decide _ || bool_decide _) eqn:Hd; [done|].
    inversion H; subst. apply orb_false_iff in Hd as [H1 H2].
    by apply bool_decide_eq_false in H1, H2.
  - intros (-> & H1 & H2).
    by rewrite !bool_decide_eq_false_2.
Qed.

Lemma sanitize_inl name err :
  sanitize name = inl err <->
  err = Errorf "invalid filename"
  /\ (Base (Clean name) = "." \/ Base (Clean name) = "/").
Proof.
  unfold sanitize. split.
  - intros H. destruct (bool_decide _ || bool_decide _) eqn:Hd; [|done].
    inversion H; subst. split; [done|].
    apply orb_true_iff in Hd as [Hd|Hd]; apply bool_decide_eq_true in Hd;
      [by left|by right].
  - intros (-> & [H|H]); rewrite H; done.
Qed.

(** Joined with the store directory, a name is an entry of it. *)
Lemma Join_name store n :
  isName (b n) ->
  Dir (Join [store; n]) = Clean store /\ Base (Join [store; n]) = n.
Proof.
  intros Hn. unfold Dir, Base, Join, Clean. cbn [map]. rewrite b_str.
  destruct (join_dir_base (b store) (b n) Hn) as [-> ->].
  by rewrite str_b.
Qed.

Lemma name_not_dirName n : isName (b n) -> os.dirName n = false.
Proof.
  intros (_ & H1 & H2 & Hall). unfold os.dirName.
  rewrite !bool_decide_eq_false_2; [done| | |]; intros ->; try done.
  by inversion Hall.
Qed.

(** Every accepted filename but [..] leads into the store directory. *)
Lemma destination_inside conf name dest :
  destination conf name = inr dest ->
  filepath.Base (filepath.Clean name) <> ".." ->
  inside (StoreDir conf) dest
  /\ Base dest = Base (Clean name).
Proof.
  unfold destination. destruct (sanitize name) as [|n] eqn:Hs; [done|].
  intros [= <-] Hdd. apply sanitize_inr in Hs as (-> & H1 & H2).
  assert (isName (b (Base (Clean name)))) as Hn.
  { apply Base_name. unfold os.dirName.
    by rewrite !bool_decide_eq_false_2. }
  destruct (Join_name (StoreDir conf) _ Hn) as [Hd Hb].
  split; [|done]. split; [done|]. rewrite Hb.
  by apply name_not_dirName.
Qed.
End sanitizer.

(** ** The file system operations *)

Module os_theory.
Import filepath.

Lemma Create_entry name ents fs :
  os.dirName (Base name) = false ->
  fs !! Dir name = Some ents ->
  ents !! Base name <> Some Directory ->
  os.Create name fs = inr (<[Dir name := <[Base name := File ""]> ents]> fs).
Proof.
  intros Hn Hd He. unfold os.Create. rewrite Hn, Hd.
  by destruct (ents !! Base name) as [[]|].
Qed.

Lemma Write_created name p ents fs :
  os.Write name p (<[Dir name := <[Base name := File ""]> ents]> fs)
  = <[Dir name := <[Base name := File p]> ents]> fs.
Proof.
  unfold os.Write. rewrite lookup_insert_eq, lookup_insert_eq.
  by rewrite !insert_insert_eq.
Qed.


End os_theory.

(** ** The handlers *)

Module handlers.
Import filepath sanitizer os_theory.

Lemma World_eta w : {| fs := fs w; logs := logs w |} = w.
Proof. by destruct w. Qed.

(** The parts are handled in the order received: the loop on
    [pre ++ rest] is the loop on [pre], then on [rest] from where [pre]
    left the file system, unless [pre] returned. *)
Lemma uploadLoop_app conf pre rest fs :
  uploadLoop conf (pre ++ rest) fs =
  match uploadLoop conf pre fs with
  | (Done, fs1) => uploadLoop conf rest fs1
  | ret => ret
  end.
Proof.
  revert fs. induction pre as [|file pre IH]; intros fs; [done|].
  cbn [app uploadLoop].
  destruct (Open file) as [|src]; [done|].
  destruct (sanitize (Filename file)) as [|n]; [done|].
  destruct (os.Create _ fs) as [|fs1]; [done|].
  destruct (io_Copy _ src fs1) as [fs2 [e|]]; [done|]. apply IH.
Qed.

(** One iteration, by what [destination] and [Create] give. *)
Lemma uploadLoop_cons conf file rest fs :
  uploadLoop conf (file :: rest) fs =
  match Open file with
  | inl err => (Return (Some err), fs)
  | inr src =>
      match destination conf (Filename file) with
      | inl err => (Return (Some err), fs)
      | inr filename =>
          match os.Create filename fs with
          | inl err => (Return (Some err), fs)
          | inr fs1 =>
              match fault src with
              | Some _ => (Return None, os.Write filename (data src) fs1)
              | None =>
                  uploadLoop conf rest (os.Write filename (data src) fs1)
              end
          end
      end
  end.
Proof.
  cbn [uploadLoop]. unfold destination, io_Copy.
  destruct (Open file) as [|src]; [done|].
  destruct (sanitize (Filename file)) as [|n]; [done|].
  destruct (os.Create _ fs) as [|fs1]; [done|].
  by destruct (fault src).
Qed.

Lemma uploadFiles_parts c conf w form files :
  MultipartForm c = inr form ->
  default [] (FormFile form !! "upload") = files ->
  uploadFiles c conf w =
  match uploadLoop conf files (fs w) with
  | (Return err, fs1) =>
      ({| returned := err; written := None |},
       {| fs := fs1; logs := logs w |})
  | (Done, fs1) => listFiles c conf {| fs := fs1; logs := logs w |}
  end.
Proof. intros Hf Hfiles. unfold uploadFiles. by rewrite Hf, Hfiles. Qed.

Lemma listFiles_fs c conf w : fs (listFiles c conf w).2 = fs w.
Proof.
  unfold listFiles, listCurrentDir.
  by destruct (os.ReadDir _ _).
Qed.

(** A part with an accepted name other than [..], a store directory
    that exists and no directory in the way: the entry holds the bytes
    of the part, whatever it held before. *)
Lemma uploadLoop_stores conf file rest fs src n ents :
  Open file = inr src ->
  sanitize (Filename file) = inr n ->
  n <> ".." ->
  fs !! Clean (StoreDir conf) = Some ents ->
  ents !! n <> Some Directory ->
  uploadLoop conf (file :: rest) fs =
  let fs2 := <[Clean (StoreDir conf) := <[n := File (data src)]> ents]> fs in
  match fault src with
  | Some _ => (Return None, fs2)
  | None => uploadLoop conf rest fs2
  end.
Proof.
  intros Ho Hs Hdd Hd He. rewrite uploadLoop_cons, Ho.
  pose proof Hs as (Hn & _)%sanitize_inr.
  destruct (destination_inside conf (Filename file)
              (Join [StoreDir conf; n])) as [[Hdir Hdn] Hb].
  { unfold destination. by rewrite Hs. }
  { by rewrite <- Hn. }
  rewrite <- Hn in Hb. unfold destination. rewrite Hs.
  rewrite (Create_entry _ ents); [|done|by rewrite Hdir|by rewrite Hb].
  by rewrite Write_created, Hdir, Hb.
Qed.
End handlers.

(** ** Properties of the handlers and of the command line *)

Import filepath sanitizer os_theory handlers.

(** C1, at the filename [..]: the sanitizer accepts it, the destination
    in the default store directory [files] is [.], the parent of the
    store directory and not an entry of it, and [uploadFiles] calls
    [os.Create] on that path, which fails because it is a directory. *)
Theorem C1_dotdot_leaves_store :
  sanitize ".." = inr ".."
  /\ destination newConfig ".." = inr "."
  /\ ~ inside (StoreDir newConfig) "."
  /\ forall src rest fs,
       uploadLoop newConfig ({| Filename := ".."; Open := inr src |} :: rest) fs
       = (Return (Some (PathError "open" "." EISDIR)), fs).
Proof.
  split; [done|]. split; [done|]. split.
  - intros [H _]. vm_compute in H. done.
  - intros src rest fs. by rewrite uploadLoop_cons.
Qed.

(** C2: the filename is the last element of the cleaned path; the
    sanitizer fails with the invalid-filename error exactly when it is
    empty, [.] or [/], and returns it otherwise; on failure the loop
    returns the error and the file system is as it was before the part. *)
Theorem C2_sanitize_degenerate (name : string) :
  let filename := Base (Clean name) in
  let degenerate := filename = "" \/ filename = "." \/ filename = "/" in
  (sanitize name = inl (Errorf "invalid filename") <-> degenerate)
  /\ (sanitize name = inr filename <-> ~ degenerate)
  /\ (forall conf file rest src fs,
        Filename file = name -> Open file = inr src -> degenerate ->
        uploadLoop conf (file :: rest) fs
        = (Return (Some (Errorf "invalid filename")), fs)).
Proof.
  cbv zeta. pose proof (Base_nonempty (Clean name)) as Hne.
  assert (sanitize name = inl (Errorf "invalid filename")
          <-> Base (Clean name) = "" \/ Base (Clean name) = "."
              \/ Base (Clean name) = "/") as Hinl.
  { rewrite sanitize_inl. tauto. }
  split; [done|]. split.
  - rewrite sanitize_inr. tauto.
  - intros conf file rest src fs Hname Ho Hd. apply Hinl in Hd.
    rewrite uploadLoop_cons, Ho. unfold destination.
    by rewrite Hname, Hd.
Qed.

Lemma C2_sanitize_degenerate_witness :
  sanitize "docs/.." = inl (Errorf "invalid filename")
  /\ sanitize "docs/a.txt" = inr "a.txt".
Proof.
  split.
  - apply (proj1 (C2_sanitize_degenerate "docs/..")).
    right; left; reflexivity.
  - apply (proj1 (proj2 (C2_sanitize_degenerate "docs/a.txt"))).
    intros [H|[H|H]]; discriminate H.
Defined.

(** What [uploadFiles] leaves when the copy of a part fails: it returns
    [nil], writes no response, and the file system holds the parts
    before the failing one and the bytes copied from it. *)
Lemma uploadFiles_copy_fault c conf w form pre file post src fs1
    filename fs2 err :
  MultipartForm c = inr form ->
  FormFile form !! "upload" = Some (pre ++ file :: post) ->
  uploadLoop conf pre (fs w) = (Done, fs1) ->
  Open file = inr src ->
  destination conf (Filename file) = inr filename ->
  os.Create filename fs1 = inr fs2 ->
  fault src = Some err ->
  uploadFiles c conf w
  = ({| returned := None; written := None |},
     {| fs := os.Write filename (data src) fs2; logs := logs w |}).
Proof.
  intros Hf Hfiles Hpre Ho Hd Hc He.
  rewrite (uploadFiles_parts c conf w form (pre ++ file :: post));
    [|done|by rewrite Hfiles].
  by rewrite uploadLoop_app, Hpre, uploadLoop_cons, Ho, Hd, Hc, He.
Qed.

(** C3: when the destination of a part was created and the copy of its
    bytes ends in an error, [uploadFiles] returns [nil], not the error. *)
Theorem C3_copy_error_swallowed c conf w form pre file post src fs1
    filename fs2 err :
  MultipartForm c = inr form ->
  FormFile form !! "upload" = Some (pre ++ file :: post) ->
  uploadLoop conf pre (fs w) = (Done, fs1) ->
  Open file = inr src ->
  destination conf (Filename file) = inr filename ->
  os.Create filename fs1 = inr fs2 ->
  fault src = Some err ->
  returned (uploadFiles c conf w).1 = None.
Proof.
  intros. by erewrite uploadFiles_copy_fault.
Qed.

Lemma C3_copy_error_swallowed_witness :
  returned
    (uploadFiles
       (example.request [example.part "a.txt" "abc";
                         example.broken "b.txt" "xy";
                         example.part "c.txt" "z"])
       newConfig example.world).1 = None.
Proof.
  eapply (C3_copy_error_swallowed _ _ _ _
            [example.part "a.txt" "abc"] (example.broken "b.txt" "xy")
            [example.part "c.txt" "z"]);
    [reflexivity | reflexivity | vm_compute; reflexivity | reflexivity
    | vm_compute; reflexivity | vm_compute; reflexivity | reflexivity].
Defined.





(** C5: the parts are handled in order; when the parts [pre] are stored
    and the filename of the next part fails the check, [uploadFiles]
    returns that error, handles no further part and leaves the file
    system as the parts [pre] left it. *)
Theorem C5_invalid_filename_stops c conf w form pre file post src fs1 err :
  MultipartForm c = inr form ->
  FormFile form !! "upload" = Some (pre ++ file :: post) ->
  uploadLoop conf pre (fs w) = (Done, fs1) ->
  Open file = inr src ->
  sanitize (Filename file) = inl err ->
  uploadFiles c conf w
  = ({| returned := Some err; written := None |},
     {| fs := fs1; logs := logs w |})
  /\ err = Errorf "invalid filename".
Proof.
  intros Hf Hfiles Hpre Ho Hs.
  rewrite (uploadFiles_parts c conf w form (pre ++ file :: post));
    [|done|by rewrite Hfiles].
  rewrite uploadLoop_app, Hpre, uploadLoop_cons, Ho. unfold destination.
  rewrite Hs. split; [done|]. by apply sanitize_inl in Hs as [-> _].
Qed.

Lemma C5_invalid_filename_stops_witness :
  uploadFiles
    (example.request [example.part "a.txt" "abc"; example.part "docs/.." "no";
                      example.part "c.txt" "z"])
    newConfig example.world
  = ({| returned := Some (Errorf "invalid filename"); written := None |},
     {| fs := <["files" := {[ "a.txt" := File "abc" ]}]> (fs example.world);
        logs := [] |}).
Proof.
  refine (proj1 (C5_invalid_filename_stops
            (example.request [example.part "a.txt" "abc";
                              example.part "docs/.." "no";
                              example.part "c.txt" "z"])
            newConfig example.world _
            [example.part "a.txt" "abc"] (example.part "docs/.." "no")
            [example.part "c.txt" "z"] _ _ _
            eq_refl eq_refl _ eq_refl _));
    vm_compute; reflexivity.
Defined.



(** C7: when the store directory cannot be read, whatever the error,
    [listFiles] renders the page with no file names, and when the page
    renders it answers with status 200 and returns no error. *)
Theorem C7_unreadable_store_lists_nothing c conf w err :
  os.ReadDir (StoreDir conf) (fs w) = inl err ->
  let v := {| Title := "Uploader"; Files := [] |} in
  (listFiles c conf w).1 = Render c StatusOK "main.html" v
  /\ forall page,
       Renderer c "main.html" v = inr page ->
       (listFiles c conf w).1
       = {| returned := None;
            written := Some {| Status := 200; Body := page |} |}.
Proof.
  intros Hr. cbv zeta.
  assert ((listFiles c conf w).1
          = Render c StatusOK "main.html"
              {| Title := "Uploader"; Files := [] |}) as H.
  { unfold listFiles, listCurrentDir. by rewrite Hr. }
  split; [done|]. intros page Hp. rewrite H. unfold Render. by rewrite Hp.
Qed.

Lemma C7_unreadable_store_lists_nothing_witness :
  (listFiles (example.request []) newConfig {| fs := ∅; logs := [] |}).1
  = {| returned := None;
       written := Some {| Status := 200; Body := "Uploader" |} |}.
Proof.
  refine (proj2 (C7_unreadable_store_lists_nothing (example.request [])
            newConfig {| fs := ∅; logs := [] |}
            (PathError "open" "files" ENOENT) _) "Uploader" _);
    reflexivity.
Defined.

(** C8: when the form is parsed and every part under [upload] is
    stored, [uploadFiles] is [listFiles] on the resulting file system;
    with no part under [upload], missing key or empty list, that is
    [listFiles] on the file system as it was, which stays as it was. *)
Theorem C8_upload_delegates_to_list c conf w form :
  MultipartForm c = inr form ->
  (forall fs1,
     uploadLoop conf (default [] (FormFile form !! "upload")) (fs w)
     = (Done, fs1) ->
     uploadFiles c conf w = listFiles c conf {| fs := fs1; logs := logs w |})
  /\ (default [] (FormFile form !! "upload") = [] ->
      uploadFiles c conf w = listFiles c conf w
      /\ fs (uploadFiles c conf w).2 = fs w).
Proof.
  intros Hf. split.
  - intros fs1 Hl.
    by rewrite (uploadFiles_parts c conf w form _ Hf eq_refl), Hl.
  - intros Hnil.
    rewrite (uploadFiles_parts c conf w form [] Hf Hnil). cbn [uploadLoop].
    rewrite World_eta. split; [done|]. apply listFiles_fs.
Qed.

Lemma C8_upload_delegates_to_list_witness :
  uploadFiles (example.request []) newConfig example.world
  = listFiles (example.request []) newConfig example.world
  /\ fs (uploadFiles (example.request []) newConfig example.world).2
     = fs example.world.
Proof.
  refine (proj2 (C8_upload_delegates_to_list (example.request []) newConfig
                   example.world _ eq_refl) _).
  reflexivity.
Defined.

(** C9, as the code has it: when the command line has no [listen] flag
    and [parseCli] returns, the configuration listens on [localhost],
    port [1323]. *)
Theorem C9_default_listen_localhost args seen c :
  flag.Parse (formalFlags newConfig) (tail args) ∅ = inr seen ->
  seen !! "listen" = None ->
  parseCli args = Returns c ->
  ListenAddr c = "localhost" /\ Port c = "1323".
Proof.
  intros Hp Hl. unfold parseCli. rewrite Hp. unfold flag.stringOf at 1.
  rewrite Hl.
  destruct (flag.boolOf seen "help" false); [done|].
  destruct (flag.boolOf seen "version" false); [done|].
  change (net.SplitHostPort _) with
    (@inr error _ ("localhost", "1323")).
  cbv iota beta. intros [= <-]. done.
Qed.

Lemma C9_default_listen_localhost_witness :
  ListenAddr {| NoEmbed := true; StoreDir := "/srv/upl";
                ListenAddr := "localhost"; Port := "1323" |} = "localhost"
  /\ Port {| NoEmbed := true; StoreDir := "/srv/upl";
             ListenAddr := "localhost"; Port := "1323" |} = "1323".
Proof.
  apply (C9_default_listen_localhost
           ["upl"; "--no-embed"; "-store=/srv/upl"; "index.html"]
           {[ "no-embed" := flag.BoolVar true;
              "store" := flag.StringVar "/srv/upl" ]});
    vm_compute; reflexivity.
Defined.

(** C9 as claimed fails: with no argument at all the listen address is
    [localhost], not [0.0.0.0]. *)
Lemma C9_default_listen_counterexample :
  ~ (forall args seen c,
       flag.Parse (formalFlags newConfig) (tail args) ∅ = inr seen ->
       seen !! "listen" = None ->
       parseCli args = Returns c ->
       ListenAddr c = "0.0.0.0" /\ Port c = "1323").
Proof.
  intros H.
  destruct (H ["upl"] ∅
              {| NoEmbed := false; StoreDir := "files";
                 ListenAddr := "localhost"; Port := "1323" |}
              eq_refl eq_refl eq_refl) as [Ha _].
  discriminate Ha.
Qed.

(** C10: when the copy of a part fails, [uploadFiles] returns at once
    with [nil]: it writes no response, [listFiles] does not run (the log
    is as before), and the file system is the one the failing part left,
    whatever parts follow it. *)
Theorem C10_copy_error_returns_at_once c conf w form pre file post src fs1
    filename fs2 err :
  MultipartForm c = inr form ->
  FormFile form !! "upload" = Some (pre ++ file :: post) ->
  uploadLoop conf pre (fs w) = (Done, fs1) ->
  Open file = inr src ->
  destination conf (Filename file) = inr filename ->
  os.Create filename fs1 = inr fs2 ->
  fault src = Some err ->
  uploadFiles c conf w
  = ({| returned := None; written := None |},
     {| fs := os.Write filename (data src) fs2; logs := logs w |})
  /\ uploadLoop conf (pre ++ file :: post) (fs w)
     = uploadLoop conf (pre ++ [file]) (fs w).
Proof.
  intros Hf Hfiles Hpre Ho Hd Hc He. split.
  - by eapply uploadFiles_copy_fault.
  - by rewrite !uploadLoop_app, Hpre, !uploadLoop_cons, Ho, Hd, Hc, He.
Qed.

Lemma C10_copy_error_returns_at_once_witness :
  uploadFiles
    (example.request [example.part "a.txt" "abc"; example.broken "b.txt" "xy";
                      example.part "c.txt" "z"])
    newConfig example.world
  = ({| returned := None; written := None |},
     {| fs := <["files" := {[ "a.txt" := File "abc"; "b.txt" := File "xy" ]}]>
                (fs example.world);
        logs := [] |}).
Proof.
  etransitivity.
  - refine (proj1 (C10_copy_error_returns_at_once
              (example.request [example.part "a.txt" "abc";
                                example.broken "b.txt" "xy";
                                example.part "c.txt" "z"])
              newConfig example.world _
              [example.part "a.txt" "abc"] (example.broken "b.txt" "xy")
              [example.part "c.txt" "z"] _ _ _ _ _
              eq_refl eq_refl _ eq_refl _ _ eq_refl));
      vm_compute; reflexivity.
  - vm_compute; reflexivity.
Defined.

(** ** Host and port *)

Module net_theory.
Import net.

Lemma b_app s1 s2 : b (s1 +:+ s2) = b s1 ++ b s2.
Proof. induction s1 as [|c s1 IH]; [done|]. simpl. by rewrite <- IH. Qed.

Lemma contains_cons c x s :
  contains c (x :: s) = Ascii.eqb x c || contains c s.
Proof.
  unfold contains. simpl. destruct (Ascii.eqb x c); [done|].
  by destruct (index c s).
Qed.

Lemma contains_app c s1 s2 :
  contains c (s1 ++ s2) = contains c s1 || contains c s2.
Proof.
  induction s1 as [|x s1 IH]; [done|]. simpl.
  by rewrite !contains_cons, IH, orb_assoc.
Qed.

Lemma contains_take c n s :
  contains c s = false -> contains c (take n s) = false.
Proof.
  intros H. rewrite <- (take_drop n s), contains_app in H.
  by apply orb_false_iff in H as [? _].
Qed.

Lemma contains_drop c n s :
  contains c s = false -> contains c (drop n s) = false.
Proof.
  intros H. rewrite <- (take_drop n s), contains_app in H.
  by apply orb_false_iff in H as [_ ?].
Qed.

Lemma index_None c s : index c s = None <-> contains c s = false.
Proof. unfold contains. by destruct (index c s). Qed.

(** [index] finds the first [c]. *)
Lemma index_app c s1 s2 :
  contains c s1 = false ->
  index c (s1 ++ c :: s2) = Some (length s1).
Proof.
  induction s1 as [|x s1 IH]; intros H; simpl.
  - by rewrite Ascii.eqb_refl.
  - rewrite contains_cons in H. apply orb_false_iff in H as [Hx Hs].
    by rewrite Hx, IH.
Qed.

Lemma index_Some c s i :
  index c s = Some i ->
  contains c (take i s) = false /\ s !! i = Some c.
Proof.
  revert i. induction s as [|x s IH]; intros i; simpl; [done|].
  destruct (Ascii.eqb x c) eqn:Hx.
  - intros [= <-]. apply Ascii.eqb_eq in Hx. by subst.
  - destruct (index c s) as [j|]; [|done]. intros [= <-]. simpl.
    destruct (IH j eq_refl) as [H1 H2]. by rewrite contains_cons, Hx, H1.
Qed.

(** [last] finds the last [c]. *)
Lemma last_app c s1 s2 :
  contains c s2 = false ->
  last c (s1 ++ c :: s2) = Some (length s1).
Proof.
  intros H. induction s1 as [|x s1 IH]; simpl.
  - apply index_None in H. 
    assert (last c s2 = None) as ->; [|by rewrite Ascii.eqb_refl].
    clear -H. induction s2 as [|y s2 IH]; [done|]. simpl in *.
    destruct (Ascii.eqb y c); [done|].
    destruct (index c s2); [done|]. by rewrite IH.
  - by rewrite IH.
Qed.

Lemma last_Some c s i :
  last c s = Some i ->
  s !! i = Some c /\ contains c (drop (S i) s) = false.
Proof.
  revert i. induction s as [|x s IH]; intros i; simpl; [done|].
  destruct (last c s) as [j|] eqn:Hl.
  - intros [= <-]. by apply IH.
  - destruct (Ascii.eqb x c) eqn:Hx; [|done]. intros [= <-].
    apply Ascii.eqb_eq in Hx. subst. split; [done|]. simpl. rewrite drop_0.
    clear -Hl. induction s as [|y s IH]; [done|]. simpl in Hl.
    destruct (last c s); [done|]. destruct (Ascii.eqb y c) eqn:Hy; [done|].
    rewrite contains_cons, Hy. by apply IH.
Qed.

Lemma head_not c x s :
  contains c (x :: s) = false -> Ascii.eqb x c = false.
Proof. rewrite contains_cons. by intros [? _]%orb_false_iff. Qed.

Lemma SplitHostPort_plain hostport h p :
  b hostport = h ++ ":"%char :: p ->
  contains ":"%char h = false ->
  contains "["%char h = false ->
  contains "]"%char h = false ->
  contains ":"%char p = false ->
  contains "["%char p = false ->
  contains "]"%char p = false ->
  SplitHostPort hostport = inr (str h, str p).
Proof.
  intros Hb Hh0 Hh1 Hh2 Hp0 Hp1 Hp2. unfold SplitHostPort. rewrite Hb.
  rewrite last_app by done.
  assert (match h ++ ":"%char :: p with
          | [] => false
          | c :: _ => Ascii.eqb c "["%char
          end = false) as ->.
  { destruct h as [|x h]; [done|]. simpl. by apply head_not in Hh1. }
  rewrite take_app_length, Hh0. cbv beta iota. rewrite !drop_0.
  rewrite !contains_app, !contains_cons, Hh1, Hh2, Hp1, Hp2. cbn.
  replace (length h + 1) with (S (length h)) by lia.
  rewrite drop_app_ge by lia.
  replace (S (length h) - length h) with 1 by lia.
  by rewrite ?skipn_cons, ?drop_0.
Qed.

Lemma SplitHostPort_bracketed hostport h p :
  b hostport = "["%char :: h ++ "]"%char :: ":"%char :: p ->
  contains "["%char h = false ->
  contains "]"%char h = false ->
  contains ":"%char p = false ->
  contains "["%char p = false ->
  contains "]"%char p = false ->
  SplitHostPort hostport = inr (str h, str p).
Proof.
  intros Hb Hh1 Hh2 Hp0 Hp1 Hp2. unfold SplitHostPort. rewrite Hb.
  replace ("["%char :: h ++ "]"%char :: ":"%char :: p)
    with (("["%char :: h ++ ["]"%char]) ++ ":"%char :: p)
    by (simpl; by rewrite <- app_assoc).
  rewrite last_app by done.
  replace (("["%char :: h ++ ["]"%char]) ++ ":"%char :: p)
    with (("["%char :: h) ++ "]"%char :: ":"%char :: p)
    by (simpl; by rewrite <- app_assoc).
  rewrite index_app by (by rewrite contains_cons, Hh2).
  change (Ascii.eqb "[" "[")%char with true. cbv iota.
  replace (length ("["%char :: h) + 1
           =? length (("["%char :: h) ++ "]"%char :: ":"%char :: p))
    with false
    by (symmetry; apply Nat.eqb_neq; rewrite length_app; simpl; lia).
  replace (length ("["%char :: h) + 1 =? length ("["%char :: h ++ ["]"%char]))
    with true
    by (symmetry; apply Nat.eqb_eq; simpl; rewrite length_app; simpl; lia).
  cbv beta iota.
  replace (length ("["%char :: h) - 1) with (length h) by (simpl; lia).
  replace (drop 1 (("["%char :: h) ++ "]"%char :: ":"%char :: p))
    with (h ++ "]"%char :: ":"%char :: p)
    by (by rewrite <- app_comm_cons, skipn_cons, drop_0).
  rewrite take_app_length.
  rewrite contains_app, !contains_cons, Hh1, Hp1. cbn [Ascii.eqb orb].
  replace (drop (length ("["%char :: h) + 1)
             (("["%char :: h) ++ "]"%char :: ":"%char :: p))
    with (":"%char :: p).
  2:{ rewrite drop_app_ge by lia.
      replace (_ - _) with 1 by lia. by rewrite ?skipn_cons, ?drop_0. }
  rewrite contains_cons, Hp2.
  replace (drop (length ("["%char :: h ++ ["]"%char]) + 1)
             (("["%char :: h) ++ "]"%char :: ":"%char :: p))
    with p; [done|].
  rewrite drop_app_ge by (simpl; rewrite length_app; simpl; lia).
  replace (_ - _) with 2 by (simpl; rewrite length_app; simpl; lia).
  by rewrite ?skipn_cons, ?drop_0.
Qed.

(** What [JoinHostPort] writes, [SplitHostPort] reads back, for a host
    without brackets and a port without colon or brackets. *)
Theorem SplitHostPort_JoinHostPort host port :
  contains "["%char (b host) = false ->
  contains "]"%char (b host) = false ->
  contains ":"%char (b port) = false ->
  contains "["%char (b port) = false ->
  contains "]"%char (b port) = false ->
  SplitHostPort (JoinHostPort host port) = inr (host, port).
Proof.
  intros Hh1 Hh2 Hp0 Hp1 Hp2. unfold JoinHostPort.
  destruct (contains ":"%char (b host)) eqn:Hc.
  - rewrite (SplitHostPort_bracketed _ (b host) (b port)); try done.
    + by rewrite !str_b.
    + by rewrite !b_app.
  - rewrite (SplitHostPort_plain _ (b host) (b port)); try done.
    + by rewrite !str_b.
    + by rewrite !b_app.
Qed.

(** Host and port, as [SplitHostPort] returns them, have no bracket, and
    the port has no colon. *)
Lemma SplitHostPort_inr hostport host port :
  SplitHostPort hostport = inr (host, port) ->
  contains "["%char (b host) = false
  /\ contains "]"%char (b host) = false
  /\ contains ":"%char (b port) = false
  /\ contains "["%char (b port) = false
  /\ contains "]"%char (b port) = false.
Proof.
  unfold SplitHostPort. set (hp := b hostport).
  destruct (last ":"%char hp) as [i|] eqn:Hl; [|done].
  apply last_Some in Hl as [Hi Hport].
  replace (i + 1) with (S i) by lia.
  destruct hp as [|c0 hp'] eqn:Hhp; [done|]. clear Hi.
  destruct (Ascii.eqb c0 "["%char) eqn:Hc0; cbv iota.
  - destruct (index "]"%char (c0 :: hp')) as [e|] eqn:He; [|done].
    destruct (e + 1 =? length (c0 :: hp')); [done|].
    destruct (e + 1 =? i) eqn:Hei; cycle 1.
    { destruct ((c0 :: hp') !! (e + 1)) as [c|]; [|done].
      by destruct (Ascii.eqb c ":"%char). }
    apply Nat.eqb_eq in Hei. cbv beta iota.
    destruct (contains "["%char (drop 1 (c0 :: hp'))) eqn:H1; [done|].
    destruct (contains "]"%char (drop (e + 1) (c0 :: hp'))) eqn:H2; [done|].
    intros [= <- <-]. rewrite !b_str.
    assert (exists e', e = S e') as [e' ->].
    { apply Ascii.eqb_eq in Hc0. subst c0. simpl in He.
      destruct (index "]"%char hp'); [|done]. inversion He; eauto. }
    apply index_Some in He as [He _].
    split; [by apply contains_take|]. split.
    { replace (S e' - 1) with e' by lia. rewrite ?skipn_cons, ?drop_0.
      rewrite firstn_cons, contains_cons in He.
      by apply orb_false_iff in He as [_ ?]. }
    split; [done|]. split.
    + apply (contains_drop _ i) in H1. rewrite drop_drop in H1. exact H1.
    + apply (contains_drop _ 1) in H2. rewrite drop_drop in H2.
      subst i. replace (S e' + 1 + 1) with (S (S e' + 1)) in H2 by lia.
      exact H2.
  - destruct (contains ":"%char (take i (c0 :: hp'))); [done|].
    cbv beta iota. rewrite !drop_0.
    destruct (contains "["%char (c0 :: hp')) eqn:H1; [done|].
    destruct (contains "]"%char (c0 :: hp')) eqn:H2; [done|].
    intros [= <- <-]. rewrite !b_str.
    split; [by apply contains_take|]. split; [by apply contains_take|].
    apply (contains_drop _ (S i)) in H1, H2.
    split; [exact Hport|]. split; [exact H1|exact H2].
Qed.

End net_theory.

(** ** The command line *)

Module cli_theory.
Import net net_theory.

Lemma Parse_stop formal arg rest seen :
  endsFlags arg = true ->
  flag.Parse formal (arg :: rest) seen = inr seen.
Proof.
  unfold endsFlags. cbn [flag.Parse].
  destruct (b arg) as [|x [|c1 s2]] eqn:Hb; [done| |].
  - by destruct x as [[] [] [] [] [] [] [] []].
  - destruct x as [[] [] [] [] [] [] [] []]; try done.
    intros ->%bool_decide_eq_true. by inversion Hb.
Qed.

Lemma splitValue_name c cs :
  contains "="%char cs = false ->
  flag.splitValue (c :: cs) = (c :: cs, None).
Proof. intros H%index_None. unfold flag.splitValue. by rewrite H. Qed.

Lemma splitValue_value c cs v :
  contains "="%char cs = false ->
  flag.splitValue (c :: cs ++ "="%char :: v) = (c :: cs, Some v).
Proof.
  intros H. unfold flag.splitValue. rewrite index_app by done.
  rewrite take_app_length. rewrite drop_app_ge by lia.
  replace (S (length cs) - length cs) with 1 by lia.
  by rewrite ?skipn_cons, ?drop_0.
Qed.

(** One string flag, in any of its four spellings. *)
Lemma Parse_string_flag formal name dflt v rest seen :
  formal !! name = Some (flag.StringVar dflt) ->
  flagName name ->
  let next := flag.Parse formal rest (<[name := flag.StringVar v]> seen) in
  flag.Parse formal (("-" +:+ name) :: v :: rest) seen = next
  /\ flag.Parse formal (("--" +:+ name) :: v :: rest) seen = next
  /\ flag.Parse formal (("-" +:+ name +:+ "=" +:+ v) :: rest) seen = next
  /\ flag.Parse formal (("--" +:+ name +:+ "=" +:+ v) :: rest) seen = next.
Proof.
  intros Hf Hn. cbv zeta. unfold flagName in Hn.
  destruct (b name) as [|c cs] eqn:Hb; [done|].
  destruct Hn as (Hc1 & Hc2 & Hcs).
  apply Ascii.eqb_neq in Hc1, Hc2.
  assert (str (c :: cs) = name) as Hname by (by rewrite <- Hb, str_b).
  repeat split; cbn [flag.Parse]; rewrite ?b_app, Hb;
    change (b "-") with ["-"%char]; change (b "--") with ["-"%char; "-"%char];
    change (b "=") with ["="%char]; cbn [app];
    rewrite ?Hc1, ?Ascii.eqb_refl; cbn [andb orb];
    rewrite ?bool_decide_eq_false_2 by done; cbv iota;
    rewrite ?Hc1, ?Hc2; cbn [orb].
  - by rewrite splitValue_name, Hname, Hf by done.
  - by rewrite splitValue_name, Hname, Hf by done.
  - by rewrite splitValue_value, Hname, Hf, str_b by done.
  - by rewrite splitValue_value, Hname, Hf, str_b by done.
Qed.

Lemma formal_store :
  formalFlags newConfig !! "store" = Some (flag.StringVar "files").
Proof. reflexivity. Qed.

Lemma formal_listen :
  formalFlags newConfig !! "listen"
  = Some (flag.StringVar "localhost:1323").
Proof. reflexivity. Qed.
End cli_theory.

Import net net_theory cli_theory.

(** The address of the configuration that [parseCli] returns: the host
    is never empty, and the address that [app] joins from host and port
    splits back into them. *)
Theorem parseCli_addr_splits args c :
  parseCli args = Returns c ->
  ListenAddr c <> ""
  /\ SplitHostPort (addr c) = inr (ListenAddr c, Port c).
Proof.
  unfold parseCli.
  destruct (flag.Parse _ _ _) as [[]|seen]; [done|done|].
  destruct (flag.boolOf seen "help" false); [done|].
  destruct (flag.boolOf seen "version" false); [done|].
  destruct (SplitHostPort _) as [|[h p]] eqn:Hs; [done|].
  intros [= <-]. unfold addr. cbn [ListenAddr Port].
  apply SplitHostPort_inr in Hs as (H1 & H2 & H3 & H4 & H5).
  case_bool_decide as Hh.
  - split; [done|]. by apply SplitHostPort_JoinHostPort.
  - split; [done|]. by apply SplitHostPort_JoinHostPort.
Qed.

Lemma parseCli_addr_splits_witness :
  ListenAddr {| NoEmbed := false; StoreDir := "files";
                ListenAddr := "::1"; Port := "8080" |} <> ""
  /\ SplitHostPort "[::1]:8080" = inr ("::1", "8080").
Proof.
  apply (parseCli_addr_splits ["upl"; "--listen=[::1]:8080"]).
  vm_compute; reflexivity.
Defined.

(** Arguments from the first one that is not a flag, or from [--], are
    not read: the configuration is the default one. *)
Theorem parseCli_positional prog arg rest :
  endsFlags arg = true ->
  parseCli (prog :: arg :: rest) = Returns newConfig.
Proof.
  intros H. unfold parseCli. cbn [tail]. by rewrite Parse_stop.
Qed.

Lemma parseCli_positional_witness :
  parseCli ["upl"; "serve"; "--store"; "/tmp"] = Returns newConfig.
Proof. apply parseCli_positional. reflexivity. Defined.

(** The store directory is the value of the [store] flag as written, in
    each spelling of the flag. *)
Theorem parseCli_store prog dir :
  let c := {| NoEmbed := false; StoreDir := dir;
              ListenAddr := "localhost"; Port := "1323" |} in
  parseCli [prog; "-store"; dir] = Returns c
  /\ parseCli [prog; "--store"; dir] = Returns c
  /\ parseCli [prog; "-store=" +:+ dir] = Returns c
  /\ parseCli [prog; "--store=" +:+ dir] = Returns c.
Proof.
  cbv zeta.
  destruct (Parse_string_flag (formalFlags newConfig) "store" "files" dir
              [] ∅ formal_store) as (H1 & H2 & H3 & H4);
    [by repeat split|].
  unfold parseCli. cbn [tail].
  change ("-store=" +:+ dir) with ("-" +:+ "store" +:+ "=" +:+ dir).
  change ("--store=" +:+ dir) with ("--" +:+ "store" +:+ "=" +:+ dir).
  change ["-store"; dir] with ["-" +:+ "store"; dir].
  change ["--store"; dir] with ["--" +:+ "store"; dir].
  rewrite H1, H2, H3, H4. cbn [flag.Parse].
  unfold flag.stringOf, flag.boolOf.
  rewrite lookup_insert_eq, !lookup_insert_ne, !lookup_empty by done.
  done.
Qed.

(** The listen address is host and port of the [listen] flag, with
    [0.0.0.0] for an empty host. *)
Theorem parseCli_listen prog host port :
  contains "["%char (b host) = false ->
  contains "]"%char (b host) = false ->
  contains ":"%char (b port) = false ->
  contains "["%char (b port) = false ->
  contains "]"%char (b port) = false ->
  parseCli [prog; "-listen"; JoinHostPort host port]
  = Returns {| NoEmbed := false; StoreDir := "files";
               ListenAddr := if bool_decide (host = "") then "0.0.0.0"
                             else host;
               Port := port |}.
Proof.
  intros Hh1 Hh2 Hp0 Hp1 Hp2.
  destruct (Parse_string_flag (formalFlags newConfig) "listen"
              "localhost:1323" (JoinHostPort host port)
              [] ∅ formal_listen) as (H1 & _);
    [by repeat split|].
  unfold parseCli. cbn [tail].
  change "-listen" with ("-" +:+ "listen"). rewrite H1. cbn [flag.Parse].
  unfold flag.stringOf, flag.boolOf.
  rewrite lookup_insert_eq, !lookup_insert_ne, !lookup_empty by done.
  by rewrite SplitHostPort_JoinHostPort.
Qed.

Lemma parseCli_listen_witness :
  parseCli ["upl"; "-listen"; ":8080"]
  = Returns {| NoEmbed := false; StoreDir := "files";
               ListenAddr := "0.0.0.0"; Port := "8080" |}.
Proof. apply (parseCli_listen "upl" "" "8080"); reflexivity. Defined.

(** ** Names under the sanitizer *)

Module names_theory.
Import filepath elements path_theory sanitizer net net_theory.

#[local] Arguments IsPathSeparator : simpl never.
#[local] Arguments notSep : simpl never.

Lemma notSep_contains e :
  Forall (fun c => notSep c = true) e <-> contains Separator e = false.
Proof.
  induction e as [|c e IH]; [done|]. rewrite contains_cons, Forall_cons, IH.
  unfold notSep, IsPathSeparator. rewrite orb_false_iff, negb_true_iff.
  tauto.
Qed.

Lemma clean_name n : isName n -> clean n = n.
Proof.
  intros Hn. pose proof (join_name [] n Hn) as H.
  destruct n as [|c n]; [by destruct Hn|].
  cbn [join joinSep] in H. rewrite H.
  change (norm (isRooted []) (split [])) with ((0, []) : stack).
  cbn [fst snd isRooted].
  by rewrite render_push, bool_decide_eq_true_2.
Qed.

Lemma base_name n : isName n -> base n = n.
Proof.
  intros (Hne & _ & _ & Hall). apply (base_snoc [] n); [done|done|by left].
Qed.

(** The last element survives [Clean], whatever precedes it. *)
Lemma base_clean_name d n :
  isName n -> base (clean (d ++ Separator :: n)) = n.
Proof.
  intros Hn. pose proof Hn as (Hne & _ & _ & Hall).
  rewrite clean_spec, split_sep, (split_names n) by done.
  unfold norm. rewrite fold_left_app. cbn [fold_left].
  destruct (fold_left _ (split d) _) as [k names].
  rewrite step_name by done.
  destruct (render_push_ends (isRooted (d ++ Separator :: n)) k names n)
    as (p & -> & Hp & _).
  destruct (p ++ n) eqn:Hpn; [by apply app_eq_nil in Hpn as [_ ?]|].
  cbn [orDot]. rewrite <- Hpn. by apply base_snoc.
Qed.

Lemma sanitize_name n : isName (b n) -> sanitize n = inr n.
Proof.
  intros Hn. apply sanitize_inr. unfold Base, Clean.
  rewrite b_str, clean_name, base_name, str_b by done.
  destruct Hn as (_ & H1 & _ & Hall). split; [done|].
  split; intros ->; [done|]. by inversion Hall.
Qed.
End names_theory.

(** ** What a request changes *)

Module upload_theory.
Import filepath sanitizer os_theory handlers.

Lemma Create_inr name fs fs1 :
  os.Create name fs = inr fs1 ->
  exists ents, fs !! Dir name = Some ents
    /\ ents !! Base name <> Some Directory
    /\ fs1 = <[Dir name := <[Base name := File ""]> ents]> fs.
Proof.
  unfold os.Create. destruct (os.dirName _); [done|].
  destruct (fs !! Dir name) as [ents|] eqn:Hd; [|done].
  intros H. exists ents. split; [done|].
  destruct (ents !! Base name) as [[]|] eqn:He; inversion H; done.
Qed.

(** The body of the loop on one part: it returns, or the part is stored
    as one more file of a directory that exists. *)
Lemma uploadLoop_step conf file rest fs :
  (exists ret, uploadLoop conf (file :: rest) fs = (Return ret, fs))
  \/ exists filename ents src,
       destination conf (Filename file) = inr filename
       /\ Open file = inr src
       /\ fs !! Dir filename = Some ents
       /\ ents !! Base filename <> Some Directory
       /\ let fs2 := <[Dir filename :=
                         <[Base filename := File (data src)]> ents]> fs in
          uploadLoop conf (file :: rest) fs
          = match fault src with
            | Some _ => (Return None, fs2)
            | None => uploadLoop conf rest fs2
            end.
Proof.
  rewrite uploadLoop_cons.
  destruct (Open file) as [|src]; [left; eauto|].
  destruct (destination conf (Filename file)) as [|filename];
    [left; eauto|].
  destruct (os.Create filename fs) as [|fs1] eqn:Hc; [left; eauto|].
  apply Create_inr in Hc as (ents & Hd & He & ->).
  right. exists filename, ents, src. by rewrite Write_created.
Qed.

Lemma keeps_refl fs : keeps fs fs.
Proof. intros d ents H. eauto. Qed.

Lemma keeps_trans fs1 fs2 fs3 : keeps fs1 fs2 -> keeps fs2 fs3 -> keeps fs1 fs3.
Proof.
  intros H12 H23 d ents H.
  destruct (H12 d ents H) as (ents2 & H2 & Hk2).
  destruct (H23 d ents2 H2) as (ents3 & H3 & Hk3).
  exists ents3. split; [done|]. intros n.
  destruct (Hk2 n) as [? ?], (Hk3 n) as [? ?]. split; auto.
Qed.

Lemma keeps_store fs d ents n data :
  fs !! d = Some ents ->
  ents !! n <> Some Directory ->
  keeps fs (<[d := <[n := File data]> ents]> fs).
Proof.
  intros Hd Hn d' ents' H'. destruct (decide (d = d')) as [<-|Hne].
  - rewrite Hd in H'. inversion H'; subst ents'.
    exists (<[n := File data]> ents). rewrite lookup_insert_eq.
    split; [done|]. intros m. destruct (decide (n = m)) as [<-|Hm].
    + rewrite lookup_insert_eq. split; [eauto|done].
    + by rewrite lookup_insert_ne.
  - exists ents'. by rewrite lookup_insert_ne.
Qed.

Lemma uploadLoop_keeps conf files : forall fs,
  keeps fs (uploadLoop conf files fs).2
  /\ forall d, (uploadLoop conf files fs).2 !! d = None <-> fs !! d = None.
Proof.
  induction files as [|file rest IH]; intros fs.
  { split; [apply keeps_refl|done]. }
  destruct (uploadLoop_step conf file rest fs)
    as [[ret ->]|(filename & ents & src & _ & _ & Hd & He & ->)].
  { split; [apply keeps_refl|done]. }
  assert (forall d,
            <[Dir filename := <[Base filename := File (data src)]> ents]> fs
              !! d = None <-> fs !! d = None) as Hdom.
  { intros d. destruct (decide (Dir filename = d)) as [<-|Hne].
    - rewrite lookup_insert_eq, Hd. done.
    - by rewrite lookup_insert_ne. }
  destruct (fault src).
  - split; [by apply keeps_store|done].
  - destruct (IH (<[Dir filename :=
                     <[Base filename := File (data src)]> ents]> fs))
      as [Hk Hn].
    split.
    + eapply keeps_trans; [by apply keeps_store|done].
    + intros d. by rewrite Hn.
Qed.

(** Parts whose names are not [..] change the store directory only. *)
Lemma uploadLoop_frame conf files : forall fs,
  Forall (fun file => partName file <> "..") files ->
  forall d, d <> Clean (StoreDir conf) ->
    (uploadLoop conf files fs).2 !! d = fs !! d.
Proof.
  induction files as [|file rest IH]; intros fs Hall d Hd; [done|].
  inversion Hall as [|?? Hfile Hrest]; subst.
  destruct (uploadLoop_step conf file rest fs)
    as [[ret ->]|(filename & ents & src & Hdest & _ & _ & _ & ->)]; [done|].
  destruct (destination_inside conf _ _ Hdest Hfile) as [[Hdir _] _].
  rewrite Hdir.
  destruct (fault src); cbn [snd].
  - by rewrite lookup_insert_ne.
  - rewrite IH by done. by rewrite lookup_insert_ne.
Qed.

Lemma storable_sanitize ents file :
  storable ents file ->
  sanitize (Filename file) = inr (partName file) /\ partName file <> "..".
Proof.
  intros (_ & Hn & _). unfold os.dirName in Hn.
  apply orb_false_iff in Hn as [Hn H3]. apply orb_false_iff in Hn as [H1 H2].
  apply bool_decide_eq_false in H1, H2, H3.
  split; [|done]. by apply sanitize_inr.
Qed.

(** Parts that are all storable are all stored, in their order. *)
Lemma uploadLoop_storable conf files : forall fs ents,
  fs !! Clean (StoreDir conf) = Some ents ->
  Forall (storable ents) files ->
  uploadLoop conf files fs
  = (Done, <[Clean (StoreDir conf) := storeParts files ents]> fs).
Proof.
  induction files as [|file rest IH]; intros fs ents Hd Hall.
  { cbn. by rewrite insert_id. }
  inversion Hall as [|?? Hfile Hrest]; subst.
  destruct (storable_sanitize _ _ Hfile) as [Hs Hdd].
  destruct Hfile as ((src & Ho & Hf) & Hn & He).
  rewrite (uploadLoop_stores conf file rest fs src (partName file) ents)
    by done.
  cbv zeta. rewrite Hf.
  rewrite (IH _ (<[partName file := File (data src)]> ents)).
  - rewrite insert_insert_eq. cbn [storeParts foldl]. unfold partData at 2.
    by rewrite Ho.
  - apply lookup_insert_eq.
  - eapply Forall_impl; [exact Hrest|].
    intros f (Hof & Hnf & Hef). split; [done|]. split; [done|].
    destruct (decide (partName file = partName f)) as [<-|Hne].
    + by rewrite lookup_insert_eq.
    + by rewrite lookup_insert_ne.
Qed.

Lemma storeParts_app pre post ents :
  storeParts (pre ++ post) ents = storeParts post (storeParts pre ents).
Proof. apply foldl_app. Qed.

Lemma storeParts_other files : forall ents n,
  Forall (fun file => partName file <> n) files ->
  storeParts files ents !! n = ents !! n.
Proof.
  induction files as [|file rest IH]; intros ents n Hall; [done|].
  inversion Hall; subst. cbn [storeParts foldl].
  change (foldl _ ?e rest) with (storeParts rest e).
  rewrite IH by done. by rewrite lookup_insert_ne.
Qed.

(** The last part of a name decides the bytes of its entry. *)
Lemma storeParts_last pre file post ents :
  Forall (fun f => partName f <> partName file) post ->
  storeParts (pre ++ file :: post) ents !! partName file
  = Some (File (partData file)).
Proof.
  intros Hpost. rewrite storeParts_app. cbn [storeParts foldl].
  change (foldl _ ?e post) with (storeParts post e).
  rewrite storeParts_other by done. apply lookup_insert_eq.
Qed.

End upload_theory.

(** ** More properties of the handlers *)

Import upload_theory names_theory.

(** A part that cannot be opened: [uploadFiles] returns the error of
    [Open], writes no response and leaves the file system as the parts
    before left it; the parts after it are not handled. *)
Theorem uploadFiles_open_error c conf w form pre file post fs1 err :
  MultipartForm c = inr form ->
  FormFile form !! "upload" = Some (pre ++ file :: post) ->
  uploadLoop conf pre (fs w) = (Done, fs1) ->
  Open file = inl err ->
  uploadFiles c conf w
  = ({| returned := Some err; written := None |},
     {| fs := fs1; logs := logs w |}).
Proof.
  intros Hf Hfiles Hpre Ho.
  rewrite (uploadFiles_parts c conf w form (pre ++ file :: post));
    [|done|by rewrite Hfiles].
  by rewrite uploadLoop_app, Hpre, uploadLoop_cons, Ho.
Qed.

Lemma uploadFiles_open_error_witness :
  uploadFiles
    (example.request
       [example.part "a.txt" "abc";
        {| Filename := "b.txt"; Open := inl (IOError "no such part") |};
        example.part "c.txt" "z"])
    newConfig example.world
  = ({| returned := Some (IOError "no such part"); written := None |},
     {| fs := <["files" := {[ "a.txt" := File "abc" ]}]> (fs example.world);
        logs := [] |}).
Proof.
  refine (uploadFiles_open_error
            (example.request
               [example.part "a.txt" "abc";
                {| Filename := "b.txt";
                   Open := inl (IOError "no such part") |};
                example.part "c.txt" "z"])
            newConfig example.world _ [example.part "a.txt" "abc"]
            {| Filename := "b.txt"; Open := inl (IOError "no such part") |}
            [example.part "c.txt" "z"] _ _ eq_refl eq_refl _ eq_refl).
  vm_compute; reflexivity.
Defined.

(** The destination of a part with an entry name. *)
Lemma destination_entry conf file :
  os.dirName (partName file) = false ->
  let dest := Join [StoreDir conf; partName file] in
  destination conf (Filename file) = inr dest
  /\ Dir dest = Clean (StoreDir conf)
  /\ Base dest = partName file.
Proof.
  intros Hn. cbv zeta.
  assert (storable ∅ {| Filename := Filename file;
                        Open := inr {| data := ""; fault := None |} |})
    as Hst by (split; [eauto|done]).
  apply storable_sanitize in Hst as [Hs _]. cbn [partName Filename] in Hs.
  unfold destination. rewrite Hs. split; [done|].
  apply Join_name. by apply Base_name.
Qed.



(** A subdirectory of the store directory is not replaced by a part of
    its name: [os.Create] fails, is a directory, and nothing is
    written. *)
Theorem uploadFiles_directory_in_the_way c conf w form pre file post src
    fs1 ents :
  MultipartForm c = inr form ->
  FormFile form !! "upload" = Some (pre ++ file :: post) ->
  uploadLoop conf pre (fs w) = (Done, fs1) ->
  Open file = inr src ->
  os.dirName (partName file) = false ->
  fs1 !! Clean (StoreDir conf) = Some ents ->
  ents !! partName file = Some Directory ->
  uploadFiles c conf w
  = ({| returned :=
          Some (PathError "open" (Join [StoreDir conf; partName file])
                  EISDIR);
        written := None |},
     {| fs := fs1; logs := logs w |}).
Proof.
  intros Hf Hfiles Hpre Ho Hn Hd He.
  destruct (destination_entry conf file Hn) as (Hdest & Hdir & Hbase).
  rewrite (uploadFiles_parts c conf w form (pre ++ file :: post));
    [|done|by rewrite Hfiles].
  rewrite uploadLoop_app, Hpre, uploadLoop_cons, Ho, Hdest.
  unfold os.Create. by rewrite Hbase, Hn, Hdir, Hd, He.
Qed.

Lemma uploadFiles_directory_in_the_way_witness :
  let w := {| fs := {[ "files" := {[ "docs" := Directory ]} ]};
              logs := [] |} in
  uploadFiles (example.request [example.part "x/docs" "abc"]) newConfig w
  = ({| returned := Some (PathError "open" "files/docs" EISDIR);
        written := None |}, w).
Proof.
  refine (uploadFiles_directory_in_the_way
            (example.request [example.part "x/docs" "abc"]) newConfig
            {| fs := {[ "files" := {[ "docs" := Directory ]} ]};
               logs := [] |} _ []
            (example.part "x/docs" "abc") [] _ _ {[ "docs" := Directory ]}
            eq_refl eq_refl eq_refl eq_refl eq_refl eq_refl eq_refl).
Defined.

(** Whatever the request, [uploadFiles] removes nothing and creates no
    directory: every directory is still there with all its entries, a
    subdirectory is still a directory, and no directory is new. *)
Theorem uploadFiles_keeps c conf w :
  keeps (fs w) (fs (uploadFiles c conf w).2)
  /\ forall d, fs (uploadFiles c conf w).2 !! d = None <-> fs w !! d = None.
Proof.
  unfold uploadFiles.
  destruct (MultipartForm c) as [|form].
  { split; [apply keeps_refl|done]. }
  pose proof (uploadLoop_keeps conf (default [] (FormFile form !! "upload"))
                (fs w)) as H.
  destruct (uploadLoop _ _ _) as [[|ret] fs1]; cbn [snd] in H.
  - by rewrite listFiles_fs.
  - done.
Qed.

(** When no part is named [..] after cleaning, [uploadFiles] changes no
    directory but the store directory. *)
Theorem uploadFiles_frame c conf w :
  (forall form, MultipartForm c = inr form ->
     Forall (fun file => partName file <> "..")
       (default [] (FormFile form !! "upload"))) ->
  forall d, d <> Clean (StoreDir conf) ->
    fs (uploadFiles c conf w).2 !! d = fs w !! d.
Proof.
  intros Hparts d Hd. unfold uploadFiles.
  destruct (MultipartForm c) as [|form]; [done|].
  pose proof (uploadLoop_frame conf _ (fs w) (Hparts form eq_refl) d Hd)
    as H.
  destruct (uploadLoop _ _ _) as [[|ret] fs1]; cbn [snd] in H.
  - by rewrite listFiles_fs.
  - done.
Qed.

Lemma uploadFiles_frame_witness :
  fs (uploadFiles
        (example.request [example.part "../../etc/passwd" "root";
                          example.part "/b.txt" "2"])
        newConfig example.world).2 !! "."
  = fs example.world !! ".".
Proof.
  apply uploadFiles_frame; [|done].
  intros form [= <-]. vm_compute. repeat constructor; discriminate.
Defined.

(** A request of storable parts stores them all and answers with the
    listing: the store directory holds, for each part, the bytes of the
    last part of that name, and its other entries are as before. *)
Theorem uploadFiles_stores_all c conf w form files ents :
  MultipartForm c = inr form ->
  FormFile form !! "upload" = Some files ->
  fs w !! Clean (StoreDir conf) = Some ents ->
  Forall (storable ents) files ->
  let ents' := storeParts files ents in
  uploadFiles c conf w
  = listFiles c conf
      {| fs := <[Clean (StoreDir conf) := ents']> (fs w); logs := logs w |}
  /\ (forall pre file post,
        files = pre ++ file :: post ->
        Forall (fun f => partName f <> partName file) post ->
        ents' !! partName file = Some (File (partData file)))
  /\ (forall n,
        Forall (fun file => partName file <> n) files ->
        ents' !! n = ents !! n).
Proof.
  intros Hf Hfiles Hd Hall. cbv zeta. split; [|split].
  - rewrite (uploadFiles_parts c conf w form files);
      [|done|by rewrite Hfiles].
    by rewrite (uploadLoop_storable conf files (fs w) ents).
  - intros pre file post -> Hpost. by apply storeParts_last.
  - intros n Hn. by apply storeParts_other.
Qed.

Lemma uploadFiles_stores_all_witness :
  fs (uploadFiles
        (example.request [example.part "a.txt" "1"; example.part "b.txt" "2";
                          example.part "x/a.txt" "3"])
        newConfig example.world).2 !! "files"
  = Some {[ "a.txt" := File "3"; "b.txt" := File "2" ]}.
Proof.
  destruct (uploadFiles_stores_all
              (example.request [example.part "a.txt" "1";
                                example.part "b.txt" "2";
                                example.part "x/a.txt" "3"])
              newConfig example.world _
              [example.part "a.txt" "1"; example.part "b.txt" "2";
               example.part "x/a.txt" "3"] ∅ eq_refl eq_refl eq_refl)
    as [-> _].
  - repeat constructor; eauto.
  - rewrite listFiles_fs. vm_compute; reflexivity.
Defined.



(** A handler writes a response only with status 200 and only when it
    returns no error. *)
Theorem handlers_reply c conf w resp :
  (written (listFiles c conf w).1 = Some resp ->
   Status resp = 200 /\ returned (listFiles c conf w).1 = None)
  /\ (written (uploadFiles c conf w).1 = Some resp ->
      Status resp = 200 /\ returned (uploadFiles c conf w).1 = None).
Proof.
  assert (forall w', written (listFiles c conf w').1 = Some resp ->
            Status resp = 200 /\ returned (listFiles c conf w').1 = None)
    as Hlist.
  { intros w'. unfold listFiles. destruct (listCurrentDir _ w') as [files w1].
    cbn [fst]. unfold Render. destruct (Renderer c _ _); [done|].
    cbn. by intros [= <-]. }
  split; [apply Hlist|]. unfold uploadFiles.
  destruct (MultipartForm c) as [|form]; [done|].
  destruct (uploadLoop _ _ _) as [[|ret] fs1]; [apply Hlist|done].
Qed.

Lemma handlers_reply_witness :
  Status {| Status := 200; Body := "Uploader" |} = 200
  /\ returned (listFiles (example.request []) newConfig example.world).1
     = None.
Proof.
  apply (proj1 (handlers_reply (example.request []) newConfig example.world
                  {| Status := 200; Body := "Uploader" |})).
  vm_compute; reflexivity.
Defined.

(** [listFiles] leaves the file system as it is.  It logs nothing when
    the store directory is read, and one line, with the error, when it
    is not. *)
Theorem listFiles_world c conf w :
  fs (listFiles c conf w).2 = fs w
  /\ match os.ReadDir (StoreDir conf) (fs w) with
     | inr _ => logs (listFiles c conf w).2 = logs w
     | inl err =>
         logs (listFiles c conf w).2
         = logs w ++ ["could not read current directory: " +:+ Error err]
     end.
Proof.
  unfold listFiles, listCurrentDir.
  by destruct (os.ReadDir _ _).
Qed.


(** ** More properties of the filename check, paths and assets *)

(** Only the last element of the client's filename counts: a name
    arrives as it is, and behind any directory part it is what is left. *)
Theorem sanitize_drops_directory dir n :
  elements.isName (b n) ->
  sanitize n = inr n
  /\ sanitize (dir +:+ "/" +:+ n) = inr n.
Proof.
  intros Hn. split; [by apply sanitize_name|].
  apply sanitize_inr. unfold Base, Clean.
  rewrite b_str, !net_theory.b_app.
  change (b "/") with [filepath.Separator]. cbn [app].
  rewrite base_clean_name, str_b by done.
  destruct Hn as (_ & H1 & _ & Hall). split; [done|].
  split; intros ->; [done|]. by inversion Hall.
Qed.

Lemma sanitize_drops_directory_witness :
  sanitize "report.txt" = inr "report.txt"
  /\ sanitize ("../../etc//./" +:+ "/" +:+ "report.txt") = inr "report.txt".
Proof.
  apply sanitize_drops_directory.
  repeat split; try discriminate. repeat constructor.
Defined.

(** What the check lets through has no separator, is not empty and
    passes the check again unchanged. *)
Theorem sanitize_stable name n :
  sanitize name = inr n ->
  n <> "" /\ net.contains "/"%char (b n) = false /\ sanitize n = inr n.
Proof.
  intros Hs. pose proof Hs as (Hn & H1 & H2)%sanitize_inr.
  destruct (decide (n = "..")) as [->|Hdd]; [done|].
  assert (elements.isName (b n)) as Hname.
  { rewrite Hn. apply Base_name. unfold os.dirName. rewrite <- Hn.
    by rewrite !bool_decide_eq_false_2. }
  split; [|split].
  - intros ->. by destruct Hname.
  - apply notSep_contains. by destruct Hname as (_ & _ & _ & ?).
  - by apply sanitize_name.
Qed.

Lemma sanitize_stable_witness :
  "c.txt" <> ""
  /\ net.contains "/"%char (b "c.txt") = false
  /\ sanitize "c.txt" = inr "c.txt".
Proof. apply (sanitize_stable "/a/../b//c.txt/"). reflexivity. Defined.

(** Joining a directory and a name, then taking the directory and the
    last element, gives the cleaned directory and the name back. *)
Theorem Join_Dir_Base dir n :
  elements.isName (b n) ->
  Dir (Join [dir; n]) = Clean dir /\ Base (Join [dir; n]) = n.
Proof.
  intros Hn. destruct (Join_name dir n Hn) as [Hdir Hbase].
  split; [exact Hdir|exact Hbase].
Qed.

Lemma Join_Dir_Base_witness :
  Dir (Join ["/srv//upl/./"; "a.txt"]) = Clean "/srv//upl/./"
  /\ Base (Join ["/srv//upl/./"; "a.txt"]) = "a.txt".
Proof.
  apply Join_Dir_Base. repeat split; try discriminate. repeat constructor.
Defined.

(** What [JoinHostPort] writes, [SplitHostPort] reads back, for a host
    without brackets and a port without colon or brackets; a host with a
    colon travels in brackets. *)
Theorem JoinHostPort_splits host port :
  net.contains "["%char (b host) = false ->
  net.contains "]"%char (b host) = false ->
  net.contains ":"%char (b port) = false ->
  net.contains "["%char (b port) = false ->
  net.contains "]"%char (b port) = false ->
  net.SplitHostPort (net.JoinHostPort host port) = inr (host, port).
Proof.
  intros Hh1 Hh2 Hp0 Hp1 Hp2.
  by apply net_theory.SplitHostPort_JoinHostPort.
Qed.

Lemma JoinHostPort_splits_witness :
  net.SplitHostPort (net.JoinHostPort "fe80::1" "1323")
  = inr ("fe80::1", "1323").
Proof. apply JoinHostPort_splits; reflexivity. Defined.

(** With the embedded assets the working directory is not consulted and
    the selection cannot fail.  Without them the selection fails exactly
    with the error of [os.Getwd], and otherwise serves the entries
    [static] and [tpl] of the working directory. *)
Theorem select_assets getwd :
  selectStaticFS getwd false = inr (SubFS staticFS "static")
  /\ selectTplFS getwd false = inr (SubFS tplFS "tpl")
  /\ match getwd with
     | inl err =>
         selectStaticFS getwd true = inl err
         /\ selectTplFS getwd true = inl err
     | inr cwd =>
         exists static tpl,
           selectStaticFS getwd true = inr (DirFS static)
           /\ selectTplFS getwd true = inr (DirFS tpl)
           /\ Dir static = Clean cwd /\ Base static = "static"
           /\ Dir tpl = Clean cwd /\ Base tpl = "tpl"
     end.
Proof.
  split; [done|]. split; [done|]. destruct getwd as [err|cwd]; [done|].
  exists (Join [cwd; "static"]), (Join [cwd; "tpl"]).
  split; [done|]. split; [done|].
  destruct (Join_name cwd "static") as [-> ->];
    [repeat split; try discriminate; repeat constructor|].
  destruct (Join_name cwd "tpl") as [-> ->];
    [repeat split; try discriminate; repeat constructor|].
  done.
Qed.

(** ** The set-up of [main] *)

Module main_theory.
Import filepath elements path_theory sanitizer names_theory upload_theory.

#[local] Arguments IsPathSeparator : simpl never.
#[local] Arguments notSep : simpl never.

(** A name is its own clean path, an entry of the working directory. *)
Lemma name_paths n :
  isName (b n) -> n <> "" /\ Clean n = n /\ Dir n = "." /\ Base n = n.
Proof.
  intros Hn. pose proof Hn as (Hne & _ & _ & Hall).
  split; [by intros ->|]. unfold Clean, Dir, Base.
  rewrite clean_name, base_name, str_b by done.
  split; [done|]. split; [|done].
  change (b n) with ([] ++ b n).
  by rewrite (dir_snoc [] (b n)); [|done|left].
Qed.

Lemma Stat_inr name fs info :
  osdir.Stat name fs = inr info ->
  name <> ""
  /\ (osdir.IsDir info = false -> fs !! Clean name = None).
Proof.
  unfold osdir.Stat. case_bool_decide as Hne; [done|]. intros Hs.
  split; [done|].
  destruct (fs !! Clean name); [by inversion Hs|done].
Qed.

Lemma Mkdir_inr name fs fs' :
  osdir.Mkdir name fs = inr fs' ->
  name <> "" /\ fs' !! Clean name = Some ∅ /\ keeps fs fs'
  /\ forall d, d <> Clean name -> (fs' !! d = None <-> fs !! d = None).
Proof.
  unfold osdir.Mkdir. case_bool_decide as Hne; [done|].
  destruct (os.dirName _); [done|].
  destruct (fs !! Clean name) eqn:Hp; [done|].
  destruct (fs !! Dir (Clean name)) as [ents|] eqn:Hd; [|done].
  destruct (ents !! Base (Clean name)) eqn:He; [done|].
  intros [= <-]. split; [done|]. split; [apply lookup_insert_eq|].
  assert (Clean name <> Dir (Clean name)) as Hpd by congruence.
  split.
  - intros d e Hde. destruct (decide (d = Clean name)) as [->|Hn1].
    { congruence. }
    rewrite lookup_insert_ne by done.
    destruct (decide (d = Dir (Clean name))) as [->|Hn2].
    + rewrite Hd in Hde. inversion Hde; subst e.
      rewrite lookup_insert_eq. eexists. split; [done|]. intros n.
      destruct (decide (n = Base (Clean name))) as [->|Hn3].
      * rewrite He, lookup_insert_eq. split; [eauto|done].
      * by rewrite lookup_insert_ne.
    + rewrite lookup_insert_ne by done. eauto.
  - intros d Hdn. rewrite lookup_insert_ne by done.
    destruct (decide (d = Dir (Clean name))) as [->|Hn2].
    + by rewrite lookup_insert_eq, Hd.
    + by rewrite lookup_insert_ne.
Qed.

Lemma MkdirAll_keeps fuel : forall path fs fs',
  osdir.MkdirAll_ fuel path fs = inr fs' -> keeps fs fs'.
Proof.
  induction fuel as [|fuel IH]; intros path fs fs'; [done|].
  cbn [osdir.MkdirAll_].
  destruct (osdir.Stat path fs) as [|dir].
  - set (j := length _).
    destruct (if 1 <? j then _ else _) as [|fs1] eqn:Hparent; [done|].
    assert (keeps fs fs1) as Hk1.
    { destruct (1 <? j); [by eapply IH|].
      inversion Hparent; subst. apply keeps_refl. }
    destruct (osdir.Mkdir path fs1) as [|fs2] eqn:Hm.
    + destruct (osdir.Stat path fs1) as [|dir]; [done|].
      destruct (osdir.IsDir dir); [|done]. by intros [= <-].
    + intros [= <-]. apply Mkdir_inr in Hm as (_ & _ & Hk2 & _).
      by eapply keeps_trans.
  - destruct (osdir.IsDir dir); [|done]. intros [= <-]. apply keeps_refl.
Qed.

(** When [MkdirAll] succeeds the path exists. *)
Lemma MkdirAll_exists path fs fs' :
  osdir.MkdirAll path fs = inr fs' ->
  exists info, osdir.Stat path fs' = inr info.
Proof.
  unfold osdir.MkdirAll. cbn [osdir.MkdirAll_].
  destruct (osdir.Stat path fs) as [|dir] eqn:Hs.
  - set (j := length _).
    destruct (if 1 <? j then _ else _) as [|fs1]; [done|].
    destruct (osdir.Mkdir path fs1) as [|fs2] eqn:Hm.
    + destruct (osdir.Stat path fs1) as [|dir] eqn:Hs1; [done|].
      destruct (osdir.IsDir dir); [|done]. intros [= <-]. eauto.
    + intros [= <-]. apply Mkdir_inr in Hm as (Hne & Hp & _).
      unfold osdir.Stat. rewrite bool_decide_eq_false_2, Hp by done. eauto.
  - destruct (osdir.IsDir dir); [|done]. intros [= <-]. eauto.
Qed.

Lemma MkdirAll_name n fs ents :
  isName (b n) ->
  fs !! "." = Some ents ->
  ents !! n = None ->
  fs !! n = None ->
  osdir.MkdirAll n fs
  = inr (<[n := ∅]> (<["." := <[n := Directory]> ents]> fs)).
Proof.
  intros Hn Hd He Hp. destruct (name_paths n Hn) as (Hne & Hc & Hdir & Hb).
  pose proof Hn as (Hbne & _ & _ & Hall).
  assert (osdir.Stat n fs = inl (PathError "stat" n ENOENT)) as Hs.
  { unfold osdir.Stat.
    by rewrite bool_decide_eq_false_2, Hc, Hp, Hdir, Hd, Hb, He. }
  unfold osdir.MkdirAll. cbn [osdir.MkdirAll_]. rewrite Hs.
  assert (dropWhile IsPathSeparator (rev (b n)) = rev (b n)) as ->.
  { destruct (rev (b n)) as [|c r] eqn:Hr; [done|]. simpl.
    apply Forall_rev in Hall. rewrite Hr in Hall. inversion Hall; subst.
    unfold notSep in *. by destruct (IsPathSeparator c). }
  rewrite rev_involutive.
  rewrite <- (app_nil_r (rev (b n))), dropWhile_names;
    [|by apply Forall_rev|by left].
  cbn [rev length Nat.ltb Nat.leb].
  unfold osdir.Mkdir.
  rewrite bool_decide_eq_false_2, Hc, Hb by done.
  rewrite (name_not_dirName n Hn), Hp, Hdir, Hd, He. done.
Qed.
End main_theory.

Import main_theory.

(** A store directory given by a plain name, as the default [files],
    that the working directory does not have yet: [main] creates it,
    empty, as an entry of the working directory, and goes on; the first
    listing is empty and logs nothing. *)
Theorem main_creates_store args conf fs0 ents :
  parseCli args = Returns conf ->
  elements.isName (b (StoreDir conf)) ->
  fs0 !! "." = Some ents ->
  ents !! StoreDir conf = None ->
  fs0 !! StoreDir conf = None ->
  let fs1 := <[StoreDir conf := ∅]>
               (<["." := <[StoreDir conf := Directory]> ents]> fs0) in
  main args fs0 = Returns (conf, fs1)
  /\ forall l,
       listCurrentDir (StoreDir conf) {| fs := fs1; logs := l |}
       = ([], {| fs := fs1; logs := l |}).
Proof.
  intros Hcli Hn Hd He Hp. cbv zeta.
  destruct (name_paths _ Hn) as (Hne & Hc & Hdir & Hb). split.
  - unfold main. rewrite Hcli, (MkdirAll_name _ fs0 ents) by done.
    unfold osdir.Stat.
    by rewrite bool_decide_eq_false_2, Hc, Hp, Hdir, Hd, Hb, He.
  - intros l. unfold listCurrentDir, os.ReadDir. cbn [fs].
    by rewrite Hc, lookup_insert_eq.
Qed.

Lemma main_creates_store_witness :
  main ["upl"] {[ "." := {[ "README" := File "upl" ]} ]}
  = Returns
      (newConfig,
       <["files" := ∅]>
         (<["." := <["files" := Directory]> {[ "README" := File "upl" ]}]>
            {[ "." := {[ "README" := File "upl" ]} ]})).
Proof.
  refine (proj1 (main_creates_store ["upl"] newConfig
                   {[ "." := {[ "README" := File "upl" ]} ]}
                   {[ "README" := File "upl" ]} eq_refl _ eq_refl eq_refl
                   eq_refl)).
  repeat split; try discriminate. repeat constructor.
Defined.

(** An empty store path, as [-store ""] gives, names nothing and cannot
    be created: [main] ends the process with status 1. *)
Theorem main_empty_store_exits args conf fs :
  parseCli args = Returns conf ->
  StoreDir conf = "" ->
  main args fs = Exit 1.
Proof.
  intros Hcli Hs. unfold main. by rewrite Hcli, Hs.
Qed.

Lemma main_empty_store_exits_witness :
  main ["upl"; "-store="] {[ "." := ∅ ]} = Exit 1.
Proof.
  apply (main_empty_store_exits _
           {| NoEmbed := false; StoreDir := "";
              ListenAddr := "localhost"; Port := "1323" |});
    reflexivity.
Defined.

(** When [main] reaches [app], the configuration is the one of
    [parseCli], nothing of the file system is removed, and the store
    path exists. *)
Theorem main_reaches_app args fs conf fs' :
  main args fs = Returns (conf, fs') ->
  parseCli args = Returns conf
  /\ keeps fs fs'
  /\ exists info, osdir.Stat (StoreDir conf) fs' = inr info.
Proof.
  unfold main. destruct (parseCli args) as [conf0|]; [|done].
  destruct (osdir.Stat (StoreDir conf0) fs) as [|info] eqn:Hs.
  - destruct (osdir.MkdirAll (StoreDir conf0) fs) as [|fs1] eqn:Hm; [done|].
    intros [= <- <-]. split; [done|]. split.
    + by eapply MkdirAll_keeps.
    + by eapply MkdirAll_exists.
  - intros [= <- <-]. split; [done|]. split; [apply keeps_refl|eauto].
Qed.

Lemma main_reaches_app_witness :
  parseCli ["upl"; "-store"; "data/in"]
  = Returns {| NoEmbed := false; StoreDir := "data/in";
               ListenAddr := "localhost"; Port := "1323" |}
  /\ keeps {[ "." := ∅ ]}
       (<["data/in" := ∅]>
          (<["data" := {[ "in" := Directory ]}]>
             (<["." := {[ "data" := Directory ]}]> {[ "." := ∅ ]})))
  /\ exists info,
       osdir.Stat "data/in"
         (<["data/in" := ∅]>
            (<["data" := {[ "in" := Directory ]}]>
               (<["." := {[ "data" := Directory ]}]> {[ "." := ∅ ]})))
       = inr info.
Proof.
  apply (main_reaches_app ["upl"; "-store"; "data/in"] {[ "." := ∅ ]}).
  vm_compute; reflexivity.
Defined.

(** [main] does not ask whether an existing store path is a directory:
    on a regular file it goes on to [app] with the file system as it
    is, and every listing is then empty and logs the error. *)
Theorem main_store_regular_file args conf fs0 info :
  parseCli args = Returns conf ->
  osdir.Stat (StoreDir conf) fs0 = inr info ->
  osdir.IsDir info = false ->
  main args fs0 = Returns (conf, fs0)
  /\ forall l,
       exists line,
         listCurrentDir (StoreDir conf) {| fs := fs0; logs := l |}
         = ([], {| fs := fs0; logs := l ++ [line] |}).
Proof.
  intros Hcli Hs Hdir. split.
  - unfold main. by rewrite Hcli, Hs.
  - intros l. apply Stat_inr in Hs as [_ Hnone].
    unfold listCurrentDir, os.ReadDir. cbn [fs]. rewrite (Hnone Hdir).
    eauto.
Qed.

Lemma main_store_regular_file_witness :
  main ["upl"; "-store=notes.txt"] {[ "." := {[ "notes.txt" := File "x" ]} ]}
  = Returns ({| NoEmbed := false; StoreDir := "notes.txt";
                ListenAddr := "localhost"; Port := "1323" |},
             {[ "." := {[ "notes.txt" := File "x" ]} ]}).
Proof.
  refine (proj1 (main_store_regular_file ["upl"; "-store=notes.txt"] _
                   {[ "." := {[ "notes.txt" := File "x" ]} ]}
                   {| osdir.IsDir := false |} eq_refl eq_refl eq_refl)).
Defined.
